(** * dep2bazel: from a Gopkg.lock entry to a go_repository rule

    A shallow embedding of [dep2bazel/main.go].  Go strings are byte
    sequences and are modelled by [string]; a [[]byte] is a [list byte].
    A Go function that can only stop abnormally by a run-time panic (an index
    out of range) returns an [option], [None] standing for the panic; a
    function with an [error] result lives in the monad [M] further down. *)

From Stdlib Require Import ZArith Ascii String.
From Stdlib.Strings Require Import Byte.
From stdpp Require Import base option list strings gmap.


(** ** Characters that cannot be written inside a literal *)

Definition dquote : string := String "034"%char EmptyString.
Definition newline : string := String "010"%char EmptyString.

(** ** Package [strings] *)

Module strings.

(** [strings.HasPrefix(s, prefix)]. *)
Definition HasPrefix (s prefix : string) : bool := String.prefix prefix s.

(** [strings.Split(s, sep)] for a separator of one byte, the only kind the
    program uses: every occurrence of [sep] ends a field, and the text
    after the last occurrence (possibly empty) is the last field. *)
Fixpoint Split (s : string) (sep : ascii) : list string :=
  match s with
  | EmptyString => [EmptyString]
  | String c s' =>
      if Ascii.eqb c sep then EmptyString :: Split s' sep
      else match Split s' sep with
           | [] => [String c EmptyString]
           | field :: fields => String c field :: fields
           end
  end.

(** [strings.Join(elems, sep)]. *)
Fixpoint Join (elems : list string) (sep : string) : string :=
  match elems with
  | [] => EmptyString
  | [e] => e
  | e :: rest => e +:+ sep +:+ Join rest sep
  end.

(** [strings.NewReplacer(old1, new1, old2, new2, ...)] when every old and
    new string is a single byte: Go then builds its byte replacer, a table
    from byte to byte in which the first pair naming a byte wins. *)
Definition Replacer := list (ascii * ascii).

Definition NewReplacer (oldnew : list (ascii * ascii)) : Replacer := oldnew.

Fixpoint replace_byte (r : Replacer) (c : ascii) : ascii :=
  match r with
  | [] => c
  | (old, new) :: r' => if Ascii.eqb c old then new else replace_byte r' c
  end.

(** [r.Replace(s)]. *)
Fixpoint Replace (r : Replacer) (s : string) : string :=
  match s with
  | EmptyString => EmptyString
  | String c s' => String (replace_byte r c) (Replace r s')
  end.

End strings.

(** ** Naming: [bazelName] *)

(** The loop [for i := len(hostparts) - 1; i >= 0; i-- { slice = append(slice,
    hostparts[i]) }]; [n] is [i + 1]. *)
Fixpoint bazelName_loop (hostparts : list string) (n : nat)
    (slice : list string) : option (list string) :=
  match n with
  | O => Some slice
  | S i => part ← hostparts !! i; bazelName_loop hostparts i (slice ++ [part])
  end.

Definition bazelName (importpath : string) : option string :=
  let parts := strings.Split importpath "/" in
  parts0 ← parts !! 0%nat;
  let hostparts := strings.Split parts0 "." in
  slice ← bazelName_loop hostparts (length hostparts) [];
  let slice := slice ++ drop 1 parts in
  let name := strings.Join slice "_" in
  Some (strings.Replace (strings.NewReplacer [("-", "_"); (".", "_")]%char) name).

(** The naming rule in the words of the specification. *)
Module NamingSpec.

Definition replace_dash_dot (c : ascii) : ascii :=
  if decide (c = "-"%char \/ c = "."%char) then "_"%char else c.

Fixpoint map_bytes (f : ascii -> ascii) (s : string) : string :=
  match s with
  | EmptyString => EmptyString
  | String c s' => String (f c) (map_bytes f s')
  end.

Definition Name (importPath : string) : string :=
  let segments := strings.Split importPath "/" in
  let host := hd EmptyString segments in
  let labels := strings.Split host "." in
  let joined := strings.Join (rev labels ++ tl segments) "_" in
  map_bytes replace_dash_dot joined.

End NamingSpec.

(** ** Package [fmt] *)

Module fmt.

(** What [Sprintf] appends when operands are left over:
    [%!(EXTRA string=a, string=b)]. *)
Fixpoint extra_operands (a : list string) : string :=
  match a with
  | [] => EmptyString
  | [x] => "string=" +:+ x
  | x :: a' => "string=" +:+ x +:+ ", " +:+ extra_operands a'
  end.

Definition extra (a : list string) : string :=
  match a with
  | [] => EmptyString
  | _ => "%!(EXTRA " +:+ extra_operands a +:+ ")"
  end.

(** [fmt.Sprintf(format, a...)] for operands of type string and formats
    whose only verb is [%v], as all formats of the program are ([%%] is
    the percent sign, a missing operand prints [%!v(MISSING)]).  Other
    verbs do not occur in the program; their bytes are copied. *)
Fixpoint Sprintf (format : string) (a : list string) : string :=
  match format with
  | EmptyString => extra a
  | String "%" (String "v" rest) =>
      match a with
      | x :: a' => x +:+ Sprintf rest a'
      | [] => "%!v(MISSING)" +:+ Sprintf rest []
      end
  | String "%" (String "%" rest) => String "%" (Sprintf rest a)
  | String c rest => String c (Sprintf rest a)
  end.

Definition hex_digit (n : N) : ascii :=
  ascii_of_N (if (n <? 10)%N then 48 + n else 87 + n).

(** [fmt.Sprintf] with the format [%x] and one operand that is a byte
    array: two lower-case hexadecimal digits per byte, nothing between. *)
Fixpoint Sprintf_x (a : list byte) : string :=
  match a with
  | [] => EmptyString
  | b :: a' =>
      let n := Byte.to_N b in
      String (hex_digit (n / 16)) (String (hex_digit (n mod 16)) (Sprintf_x a'))
  end.

End fmt.

(** ** Package [crypto/sha256] *)

Module crypto_sha256.

Local Open Scope Z_scope.

(** 32-bit words are integers below [2^32]; sums wrap around. *)
Definition wrap (x : Z) : Z := x mod 2 ^ 32.
Definition add (x y : Z) : Z := wrap (x + y).
Definition rotr (n x : Z) : Z := Z.lor (Z.shiftr x n) (wrap (Z.shiftl x (32 - n))).
Definition not32 (x : Z) : Z := Z.lxor x (2 ^ 32 - 1).

Definition Ch (x y z : Z) : Z := Z.lxor (Z.land x y) (Z.land (not32 x) z).
Definition Maj (x y z : Z) : Z :=
  Z.lxor (Z.lxor (Z.land x y) (Z.land x z)) (Z.land y z).
Definition Sum0 (x : Z) : Z := Z.lxor (Z.lxor (rotr 2 x) (rotr 13 x)) (rotr 22 x).
Definition Sum1 (x : Z) : Z := Z.lxor (Z.lxor (rotr 6 x) (rotr 11 x)) (rotr 25 x).
Definition sig0 (x : Z) : Z := Z.lxor (Z.lxor (rotr 7 x) (rotr 18 x)) (Z.shiftr x 3).
Definition sig1 (x : Z) : Z := Z.lxor (Z.lxor (rotr 17 x) (rotr 19 x)) (Z.shiftr x 10).

Definition primes : list Z :=
  [2; 3; 5; 7; 11; 13; 17; 19; 23; 29; 31; 37; 41; 43; 47; 53; 59; 61; 67; 71;
   73; 79; 83; 89; 97; 101; 103; 107; 109; 113; 127; 131; 137; 139; 149; 151;
   157; 163; 167; 173; 179; 181; 191; 193; 197; 199; 211; 223; 227; 229; 233;
   239; 241; 251; 257; 263; 269; 271; 277; 281; 283; 293; 307; 311].

(** The cube root of [n], rounded down, found bit by bit from bit [bits]. *)
Fixpoint cube_root (bits : nat) (n r : Z) : Z :=
  match bits with
  | O => r
  | S b =>
      let r' := r + 2 ^ Z.of_nat b in
      cube_root b n (if r' * r' * r' <=? n then r' else r)
  end.

(** The round constants: the first 32 bits of the fractional part of the
    cube root of each of the first 64 primes. *)
Definition K : list Z :=
  Eval vm_compute in map (fun p => wrap (cube_root 40 (p * 2 ^ 96) 0)) primes.

(** The initial hash value: the same of the square roots of the first 8. *)
Definition init : list Z :=
  Eval vm_compute in map (fun p => wrap (Z.sqrt (p * 2 ^ 64))) (take 8 primes).

Definition byteZ (b : byte) : Z := Z.of_N (Byte.to_N b).

Definition Zbyte (z : Z) : byte :=
  match Byte.of_N (Z.to_N (z mod 256)) with
  | Some b => b
  | None => x00
  end.

(** The message, the byte 0x80, zero bytes up to 56 modulo 64, and the
    length of the message in bits as 8 bytes, most significant first. *)
Definition pad (data : list byte) : list Z :=
  let len := Z.of_nat (length data) in
  let zeros := Z.to_nat ((55 - len) mod 64) in
  (byteZ <$> data) ++ [128] ++ replicate zeros 0
    ++ map (fun i => Z.shiftr (8 * len) (8 * (7 - Z.of_nat i)) mod 256) (seq 0 8).

Fixpoint words (bytes : list Z) : list Z :=
  match bytes with
  | b0 :: b1 :: b2 :: b3 :: rest =>
      (((b0 * 256 + b1) * 256 + b2) * 256 + b3) :: words rest
  | _ => []
  end.

(** The message schedule, most recent word first: [n] more words are
    added to [recent]. *)
Fixpoint schedule (n : nat) (recent : list Z) : list Z :=
  match n with
  | O => recent
  | S n' =>
      let at_ (i : nat) := nth i recent 0 in
      schedule n' (add (add (sig1 (at_ 1%nat)) (at_ 6%nat))
                       (add (sig0 (at_ 14%nat)) (at_ 15%nat)) :: recent)
  end.

Definition round (h : list Z) (kw : Z * Z) : list Z :=
  match h with
  | [a; b; c; d; e; f; g; hh] =>
      let t1 := add (add (add (add hh (Sum1 e)) (Ch e f g)) (fst kw)) (snd kw) in
      let t2 := add (Sum0 a) (Maj a b c) in
      [add t1 t2; a; b; c; add d t1; e; f; g]
  | _ => h
  end.

Definition block (h : list Z) (bytes : list Z) : list Z :=
  let w := rev (schedule 48 (rev (words bytes))) in
  zip_with add h (fold_left round (zip K w) h).

Fixpoint blocks (n : nat) (h : list Z) (bytes : list Z) : list Z :=
  match n with
  | O => h
  | S n' => blocks n' (block h (take 64 bytes)) (drop 64 bytes)
  end.

Definition word_bytes (x : Z) : list byte :=
  [Zbyte (Z.shiftr x 24); Zbyte (Z.shiftr x 16); Zbyte (Z.shiftr x 8); Zbyte x].

(** [sha256.Sum256(data)]: the 32 bytes of the digest. *)
Definition Sum256 (data : list byte) : list byte :=
  let padded := pad data in
  concat (word_bytes <$> blocks (length padded / 64) init padded).

End crypto_sha256.

(** The digest is computed on concrete bytes only. *)
#[global] Opaque crypto_sha256.Sum256.
#[global] Arguments crypto_sha256.Sum256 : simpl never.
#[global] Arguments fmt.Sprintf_x : simpl never.

(** ** Repository descriptors *)

Record RemoteTarball := mkRemoteTarball {
  url : string;
  stripPrefix : string;
  sha256 : string
}.

Record RemoteGitRepo := mkRemoteGitRepo {
  revision : string
}.

(** The interface [RemoteRepository]: one method, [GetRepoString]. *)
Class RemoteRepository (T : Type) := {
  GetRepoString : T -> string -> string -> string
}.

(** [func (t *RemoteTarball) GetRepoString]; each [let] is one [str +=]. *)
#[export] Instance RemoteTarball_RemoteRepository : RemoteRepository RemoteTarball := {
  GetRepoString t name importPath :=
    let str := fmt.Sprintf newline [] in
    let str := str +:+ fmt.Sprintf ("    go_repository(" +:+ newline) [] in
    let str := str +:+ fmt.Sprintf
      ("        name = " +:+ dquote +:+ "%v" +:+ dquote +:+ "," +:+ newline) [name] in
    let str := str +:+ fmt.Sprintf
      ("        importpath = " +:+ dquote +:+ "%v" +:+ dquote +:+ "," +:+ newline)
      [importPath] in
    let str := str +:+ fmt.Sprintf
      ("        urls = [" +:+ dquote +:+ "%v" +:+ dquote +:+ "]," +:+ newline)
      [url t] in
    let str := str +:+ fmt.Sprintf
      ("        strip_prefix = " +:+ dquote +:+ "%v" +:+ dquote +:+ "," +:+ newline)
      [stripPrefix t] in
    let str :=
      if decide (sha256 t <> EmptyString)
      then str +:+ fmt.Sprintf
        ("        sha256 = " +:+ dquote +:+ "%v" +:+ dquote +:+ "," +:+ newline)
        [sha256 t]
      else str in
    let str := str +:+ fmt.Sprintf
      ("        build_file_proto_mode = " +:+ dquote +:+ "disable" +:+ dquote
         +:+ "," +:+ newline) [] in
    let str := str +:+ fmt.Sprintf ("    )" +:+ newline) [] in
    str
}.

(** [func (t *RemoteGitRepo) GetRepoString]. *)
#[export] Instance RemoteGitRepo_RemoteRepository : RemoteRepository RemoteGitRepo := {
  GetRepoString t name importPath :=
    let str := fmt.Sprintf newline [] in
    let str := str +:+ fmt.Sprintf ("    go_repository(" +:+ newline) [] in
    let str := str +:+ fmt.Sprintf
      ("        name = " +:+ dquote +:+ "%v" +:+ dquote +:+ "," +:+ newline) [name] in
    let str := str +:+ fmt.Sprintf
      ("        importpath = " +:+ dquote +:+ "%v" +:+ dquote +:+ "," +:+ newline)
      [importPath] in
    let str := str +:+ fmt.Sprintf
      ("        commit = " +:+ dquote +:+ "%v" +:+ dquote +:+ "," +:+ newline)
      [revision t] in
    let str := str +:+ fmt.Sprintf
      ("        build_file_proto_mode = " +:+ dquote +:+ "disable" +:+ dquote
         +:+ "," +:+ newline) [] in
    let str := str +:+ fmt.Sprintf ("    )" +:+ newline) [] in
    str
}.

(** A value of interface type [RemoteRepository]: one of the two pointer
    types that implement it, with dynamic dispatch of the method. *)
Inductive repository :=
  | Tarball (t : RemoteTarball)
  | GitRepo (g : RemoteGitRepo).

#[export] Instance repository_RemoteRepository : RemoteRepository repository := {
  GetRepoString r name importPath :=
    match r with
    | Tarball t => GetRepoString t name importPath
    | GitRepo g => GetRepoString g name importPath
    end
}.

(** The rule block in the words of the specification: a list of fields, one
    per line, between the opening and the closing line of the rule. *)
Module RenderSpec.

Definition quoted (s : string) : string := dquote +:+ s +:+ dquote.

Definition field (key value : string) : string :=
  "        " +:+ key +:+ " = " +:+ value +:+ "," +:+ newline.

Fixpoint lines (fields : list string) : string :=
  match fields with
  | [] => EmptyString
  | f :: fields' => f +:+ lines fields'
  end.

Definition block (fields : list string) : string :=
  newline +:+ "    go_repository(" +:+ newline +:+ lines fields +:+ "    )" +:+ newline.

Definition proto_mode_disabled : string :=
  field "build_file_proto_mode" (quoted "disable").

Definition tarball_fields (name importPath : string) (t : RemoteTarball) : list string :=
  [ field "name" (quoted name);
    field "importpath" (quoted importPath);
    field "urls" ("[" +:+ quoted (url t) +:+ "]");
    field "strip_prefix" (quoted (stripPrefix t)) ]
  ++ (if decide (sha256 t = EmptyString) then []
      else [field "sha256" (quoted (sha256 t))])
  ++ [ proto_mode_disabled ].

Definition vcs_fields (name importPath : string) (g : RemoteGitRepo) : list string :=
  [ field "name" (quoted name);
    field "importpath" (quoted importPath);
    field "commit" (quoted (revision g));
    proto_mode_disabled ].

End RenderSpec.

(** ** Package [path] *)

Module path.

(** Offset of the last byte [sep] of [s] at or after offset [pos], given
    the last one seen before ([-1] when there is none). *)
Fixpoint last_index_from (s : string) (sep : ascii) (pos last : Z) : Z :=
  match s with
  | EmptyString => last
  | String c s' =>
      last_index_from s' sep (pos + 1) (if Ascii.eqb c sep then pos else last)
  end.

(** [strings.LastIndex(s, sep)] for a separator of one byte. *)
Definition LastIndex (s : string) (sep : ascii) : Z := last_index_from s sep 0 (-1).

(** [path.Split(path)]: [i := strings.LastIndex(path, "/")], then
    [path[:i+1], path[i+1:]]. *)
Definition Split (p : string) : string * string :=
  let i := LastIndex p "/" in
  let cut := Z.to_nat (i + 1) in
  (String.substring 0 cut p, String.substring cut (String.length p - cut) p).

End path.

(** ** Package [regexp] *)

Module regexp.

(** The syntax tree of a pattern, with the operators of [regexp/syntax]
    that the two patterns of the program use. *)
Inductive Regexp :=
  | EmptyMatch
  | Literal (lit : string)
  | CharClass (ranges : list (ascii * ascii))
  | BeginText
  | EndText
  | Capture (index : nat) (sub : Regexp)
  | Star (sub : Regexp)
  | Plus (sub : Regexp)
  | Quest (sub : Regexp)
  | Repeat (min max : nat) (sub : Regexp)
  | Concat (sub1 sub2 : Regexp)
  | Alternate (sub1 sub2 : Regexp).

(** Number of capturing groups, the method [NumSubexp]. *)
Fixpoint NumSubexp (re : Regexp) : nat :=
  match re with
  | EmptyMatch | Literal _ | CharClass _ | BeginText | EndText => 0
  | Capture index sub => Nat.max index (NumSubexp sub)
  | Star sub | Plus sub | Quest sub | Repeat _ _ sub => NumSubexp sub
  | Concat sub1 sub2 | Alternate sub1 sub2 =>
      Nat.max (NumSubexp sub1) (NumSubexp sub2)
  end.

Definition in_range (c : ascii) (range : ascii * ascii) : bool :=
  ((N_of_ascii (fst range) <=? N_of_ascii c)%N
   && (N_of_ascii c <=? N_of_ascii (snd range))%N)%bool.

Definition in_class (ranges : list (ascii * ascii)) (c : ascii) : bool :=
  existsb (in_range c) ranges.

(** Where each group matched: byte offsets of its start and end in the
    text, [None] for a group that took no part in the match. *)
Abbreviation captures := (list (option (nat * nat))).

(** What remains to be matched after a sub-pattern: the continuation gets
    the offset reached, the text from there on and the groups so far. *)
Definition continuation := nat -> string -> captures -> option captures.

Definition matcher := nat -> string -> captures -> continuation -> option captures.

(** [lit] is read off the front of [s]. *)
Fixpoint strip_literal (lit s : string) : option string :=
  match lit, s with
  | EmptyString, _ => Some s
  | String a lit', String b s' =>
      if Ascii.eqb a b then strip_literal lit' s' else None
  | String _ _, EmptyString => None
  end.

(** Greedy iteration of [body]: one more round is preferred to stopping,
    and a round that consumes nothing is not taken.  Every round consumes
    a byte, so [fuel] equal to the length of the remaining text is never
    used up before the text is ([star_loop_enough_fuel] below). *)
Fixpoint star_loop (body : matcher) (fuel : nat) : matcher :=
  fun i s c k =>
    match fuel with
    | O => k i s c
    | S fuel' =>
        match body i s c (fun j s' c' =>
                if (j =? i)%nat then None else star_loop body fuel' j s' c' k)
        with
        | Some found => Some found
        | None => k i s c
        end
    end.

(** Up to [n] optional greedy rounds of [body], as [x{0,n}]. *)
Fixpoint quest_loop (body : matcher) (n : nat) : matcher :=
  fun i s c k =>
    match n with
    | O => k i s c
    | S n' =>
        match body i s c (fun j s' c' => quest_loop body n' j s' c' k) with
        | Some found => Some found
        | None => k i s c
        end
    end.

(** Exactly [n] rounds of [body], then [next]. *)
Fixpoint times_loop (body : matcher) (n : nat) (next : matcher) : matcher :=
  fun i s c k =>
    match n with
    | O => next i s c k
    | S n' => body i s c (fun j s' c' => times_loop body n' next j s' c' k)
    end.

(** The matcher of a pattern: a backtracking search in which the left
    branch of an alternation and one more round of a repetition are tried
    first; this is the preference order of Go's leftmost-first matching.
    The classes and literals of the patterns are ASCII, so matching byte
    by byte agrees with matching rune by rune. *)
Fixpoint match_here (re : Regexp) : matcher :=
  fun i s c k =>
    match re with
    | EmptyMatch => k i s c
    | Literal lit =>
        match strip_literal lit s with
        | Some s' => k (i + String.length lit) s' c
        | None => None
        end
    | CharClass ranges =>
        match s with
        | String x s' => if in_class ranges x then k (S i) s' c else None
        | EmptyString => None
        end
    | BeginText => if (i =? 0)%nat then k i s c else None
    | EndText =>
        match s with
        | EmptyString => k i s c
        | String _ _ => None
        end
    | Capture index sub =>
        match_here sub i s c (fun j s' c' => k j s' (<[index := Some (i, j)]> c'))
    | Star sub => star_loop (match_here sub) (String.length s) i s c k
    | Plus sub =>
        match_here sub i s c (fun j s' c' =>
          star_loop (match_here sub) (String.length s') j s' c' k)
    | Quest sub => quest_loop (match_here sub) 1 i s c k
    | Repeat min max sub =>
        times_loop (match_here sub) min (quest_loop (match_here sub) (max - min)) i s c k
    | Concat sub1 sub2 =>
        match_here sub1 i s c (fun j s' c' => match_here sub2 j s' c' k)
    | Alternate sub1 sub2 =>
        match match_here sub1 i s c k with
        | Some found => Some found
        | None => match_here sub2 i s c k
        end
    end.

(** The leftmost match: the pattern, as group 0, is tried at offset [i]
    and then at every later offset. *)
Fixpoint find_from (re : Regexp) (c0 : captures) (i : nat) (s : string)
    : option captures :=
  match match_here (Capture 0 re) i s c0 (fun _ _ c => Some c) with
  | Some found => Some found
  | None =>
      match s with
      | EmptyString => None
      | String _ s' => find_from re c0 (S i) s'
      end
  end.

Definition submatch (text : string) (group : option (nat * nat)) : string :=
  match group with
  | Some (from, to) => String.substring from (to - from) text
  | None => EmptyString
  end.

(** [re.FindStringSubmatch(s)]: [None] is the nil slice of no match;
    otherwise the text of the match and of each group, the empty string
    for a group that matched nothing. *)
Definition FindStringSubmatch (re : Regexp) (s : string) : option (list string) :=
  match find_from re (replicate (S (NumSubexp re)) None) 0 s with
  | Some found => Some (submatch s <$> found)
  | None => None
  end.

(** *** Reading a pattern

    The part of Go's pattern syntax that the program uses: literals,
    escaped punctuation, classes of bytes and ranges, groups with and
    without capture, the operators star, plus, question mark and the
    counted repetition with both bounds, alternation, and the anchors of
    the whole text.  Anything else is refused. *)

Definition is_digit (c : ascii) : bool := in_range c ("0", "9")%char.

Definition is_word (c : ascii) : bool :=
  in_class [("a", "z"); ("A", "Z"); ("0", "9"); ("_", "_")]%char c.

Definition is_operator (c : ascii) : bool :=
  existsb (Ascii.eqb c) ["*"; "+"; "?"; "{"]%char.

(** The items of a class after the opening bracket, up to the closing
    one: a byte, or two bytes with a dash between for a range. *)
Fixpoint parse_class (s : string) (ranges : list (ascii * ascii))
    : option (list (ascii * ascii) * string) :=
  match s with
  | EmptyString => None
  | String "]" rest => match ranges with [] => None | _ => Some (ranges, rest) end
  | String "\" _ | String "[" _ | String "^" _ => None
  | String _ (String "-" (String "]" _)) => None
  | String lo (String "-" (String hi rest)) =>
      if (N_of_ascii lo <=? N_of_ascii hi)%N
      then parse_class rest (ranges ++ [(lo, hi)])
      else None
  | String c rest => parse_class rest (ranges ++ [(c, c)])
  end.

Fixpoint parse_number (s : string) (n : nat) : nat * string :=
  match s with
  | String c rest =>
      if is_digit c
      then parse_number rest (10 * n + (nat_of_ascii c - 48))
      else (n, s)
  | EmptyString => (n, s)
  end.

(** The operator, if any, that follows an atom; a second operator after
    it (a lazy or a nested repetition) is refused. *)
Definition parse_postfix (atom : Regexp) (s : string) : option (Regexp * string) :=
  let single (piece : Regexp) (rest : string) :=
    match rest with
    | String c _ => if is_operator c then None else Some (piece, rest)
    | EmptyString => Some (piece, rest)
    end in
  match s with
  | String "*" rest => single (Star atom) rest
  | String "+" rest => single (Plus atom) rest
  | String "?" rest => single (Quest atom) rest
  | String "{" (String c rest) =>
      if is_digit c then
        match parse_number (String c rest) 0 with
        | (min, String "," (String d rest')) =>
            if is_digit d then
              match parse_number (String d rest') 0 with
              | (max, String "}" rest'') =>
                  if (min <=? max)%nat then single (Repeat min max atom) rest''
                  else None
              | _ => None
              end
            else None
        | _ => None
        end
      else None
  | _ => Some (atom, s)
  end.

(** Concatenation, with neighbouring literals joined into one. *)
Definition cat (piece rest : Regexp) : Regexp :=
  match piece, rest with
  | _, EmptyMatch => piece
  | Literal x, Literal y => Literal (x +:+ y)
  | Literal x, Concat (Literal y) rest' => Concat (Literal (x +:+ y)) rest'
  | _, _ => Concat piece rest
  end.

(** The three levels of the grammar; [n] counts the capturing groups
    opened so far. *)
Fixpoint parse_alternation (fuel : nat) (s : string) (n : nat) {struct fuel}
    : option (Regexp * string * nat) :=
  match fuel with
  | O => None
  | S fuel' =>
      match parse_concatenation fuel' s n with
      | Some (first, String "|" rest, n') =>
          match parse_alternation fuel' rest n' with
          | Some (others, rest', n'') => Some (Alternate first others, rest', n'')
          | None => None
          end
      | parsed => parsed
      end
  end
with parse_concatenation (fuel : nat) (s : string) (n : nat) {struct fuel}
    : option (Regexp * string * nat) :=
  match fuel with
  | O => None
  | S fuel' =>
      match s with
      | EmptyString | String "|" _ | String ")" _ => Some (EmptyMatch, s, n)
      | _ =>
          match parse_atom fuel' s n with
          | Some (atom, rest, n') =>
              match parse_postfix atom rest with
              | Some (piece, rest') =>
                  match parse_concatenation fuel' rest' n' with
                  | Some (more, rest'', n'') => Some (cat piece more, rest'', n'')
                  | None => None
                  end
              | None => None
              end
          | None => None
          end
      end
  end
with parse_atom (fuel : nat) (s : string) (n : nat) {struct fuel}
    : option (Regexp * string * nat) :=
  match fuel with
  | O => None
  | S fuel' =>
      match s with
      | String "(" (String "?" (String ":" rest)) =>
          match parse_alternation fuel' rest n with
          | Some (sub, String ")" rest', n') => Some (sub, rest', n')
          | _ => None
          end
      | String "(" (String "?" _) => None
      | String "(" rest =>
          match parse_alternation fuel' rest (S n) with
          | Some (sub, String ")" rest', n') => Some (Capture (S n) sub, rest', n')
          | _ => None
          end
      | String "[" rest =>
          match parse_class rest [] with
          | Some (ranges, rest') => Some (CharClass ranges, rest', n)
          | None => None
          end
      | String "\" (String c rest) =>
          if is_word c then None else Some (Literal (String c EmptyString), rest, n)
      | String "^" rest => Some (BeginText, rest, n)
      | String "$" rest => Some (EndText, rest, n)
      | String c rest =>
          if (is_operator c || existsb (Ascii.eqb c) ["."; "}"; "\"; ")"; "|"]%char)%bool
          then None
          else Some (Literal (String c EmptyString), rest, n)
      | EmptyString => None
      end
  end.

(** [regexp.Compile(expr)], for the patterns in the part of the syntax
    above; [None] is an error (a panic of [MustCompile]). *)
Definition Compile (expr : string) : option Regexp :=
  match parse_alternation (4 * String.length expr + 4) expr 0 with
  | Some (re, EmptyString, _) => Some re
  | _ => None
  end.


End regexp.

Import regexp.

(** [j] and [s'] are an offset and the text from there on that can follow
    the offset [i] with the text [s]: part of [s] was consumed, or none. *)
Definition follows (i : nat) (s : string) (j : nat) (s' : string) : Prop :=
  i <= j /\ j + String.length s' = i + String.length s.

(** A matcher that finds a match got it from its continuation, to which it
    handed an offset and a text that follow its own, and as many groups as
    it received. *)
Definition keeps_groups (mt : matcher) : Prop :=
  forall i s c k found,
    mt i s c k = Some found ->
    exists j s' c',
      follows i s j s' /\ length c' = length c /\ k j s' c' = Some found.

(** What a matcher finds depends on its continuation only at the offsets
    and texts that follow its own. *)
Definition looks_ahead_only (mt : matcher) : Prop :=
  forall i s c k1 k2,
    (forall j s' c', follows i s j s' -> k1 j s' c' = k2 j s' c') ->
    mt i s c k1 = mt i s c k2.

(** ** The URL remapper *)

Definition lower_digit : list (ascii * ascii) := [("a", "z"); ("0", "9")]%char.
Definition alpha : list (ascii * ascii) := [("a", "z"); ("A", "Z")]%char.
Definition alnum : list (ascii * ascii) := [("a", "z"); ("A", "Z"); ("0", "9")]%char.
Definition dash : list (ascii * ascii) := [("-", "-")]%char.
Definition dash_dot : list (ascii * ascii) := [("-", "-"); (".", ".")]%char.

(** The version tag of both patterns: v0 or v and a number without leading
    zero; then at most two more numbers, each after a dot; then, optionally,
    the suffix -unstable. *)
Definition version_tag : Regexp :=
  Concat
    (Alternate (Literal "v0")
       (Concat (Literal "v")
          (Concat (CharClass [("1", "9")]%char) (Star (CharClass [("0", "9")]%char)))))
    (Concat
       (Repeat 0 2
          (Alternate (Literal ".0")
             (Concat (Literal ".")
                (Concat (CharClass [("1", "9")]%char)
                   (Star (CharClass [("0", "9")]%char))))))
       (Quest (Literal "-unstable"))).

Definition gopkgInPatternOld_source : string :=
  "^/(?:([a-z0-9][-a-z0-9]+)/)?((?:v0|v[1-9][0-9]*)(?:\.0|\.[1-9][0-9]*){0,2}(?:-unstable)?)/([a-zA-Z][-a-zA-Z0-9]*)(?:\.git)?((?:/[a-zA-Z][-a-zA-Z0-9]*)*)$".

Definition gopkgInPatternOld : Regexp :=
  Concat BeginText
  (Concat (Literal "/")
  (Concat (Quest (Concat
             (Capture 1 (Concat (CharClass lower_digit)
                                (Plus (CharClass (dash ++ lower_digit)))))
             (Literal "/")))
  (Concat (Capture 2 version_tag)
  (Concat (Literal "/")
  (Concat (Capture 3 (Concat (CharClass alpha) (Star (CharClass (dash ++ alnum)))))
  (Concat (Quest (Literal ".git"))
  (Concat (Capture 4 (Star (Concat (Literal "/")
                           (Concat (CharClass alpha) (Star (CharClass (dash ++ alnum)))))))
          EndText))))))).

Definition gopkgInPatternNew_source : string :=
  "^/(?:([a-zA-Z0-9][-a-zA-Z0-9]+)/)?([a-zA-Z][-.a-zA-Z0-9]*)\.((?:v0|v[1-9][0-9]*)(?:\.0|\.[1-9][0-9]*){0,2}(?:-unstable)?)(?:\.git)?((?:/[a-zA-Z0-9][-.a-zA-Z0-9]*)*)$".

Definition gopkgInPatternNew : Regexp :=
  Concat BeginText
  (Concat (Literal "/")
  (Concat (Quest (Concat
             (Capture 1 (Concat (CharClass alnum) (Plus (CharClass (dash ++ alnum)))))
             (Literal "/")))
  (Concat (Capture 2 (Concat (CharClass alpha) (Star (CharClass (dash_dot ++ alnum)))))
  (Concat (Literal ".")
  (Concat (Capture 3 version_tag)
  (Concat (Quest (Literal ".git"))
  (Concat (Capture 4 (Star (Concat (Literal "/")
                           (Concat (CharClass alnum)
                                   (Star (CharClass (dash_dot ++ alnum)))))))
          EndText))))))).

(** [s[n:]], which panics when [n] exceeds the length of [s]. *)
Definition slice_from (s : string) (n : nat) : option string :=
  if decide (n <= String.length s) then Some (String.substring n (String.length s - n) s)
  else None.

(** Lines 156 to 161 of [remapURL], where both ways of matching meet. *)
Definition remapURL_github (m : list string) : option string :=
  repoUser ← m !! 1%nat;
  repoName ← m !! 2%nat;
  if decide (repoUser <> EmptyString)
  then Some ((("https://github.com/" +:+ repoUser) +:+ "/") +:+ repoName)
  else Some ((("https://github.com/go-" +:+ repoName) +:+ "/") +:+ repoName).

Definition remapURL (url : string) : option string :=
  if strings.HasPrefix url "https://gopkg.in/" then
    tail ← slice_from url (String.length "https://gopkg.in");
    match FindStringSubmatch gopkgInPatternNew tail with
    | Some m => remapURL_github m
    | None =>
        match FindStringSubmatch gopkgInPatternOld tail with
        | None => Some url
        | Some m =>
            (* m[2], m[3] = m[3], m[2] *)
            m3 ← m !! 3%nat;
            m2 ← m !! 2%nat;
            remapURL_github (<[3%nat := m2]> (<[2%nat := m3]> m))
        end
    end
  else if strings.HasPrefix url "https://go.googlesource.com/" then
    let '(_, repoName) := path.Split url in
    Some ("https://github.com/golang/" +:+ repoName)
  else Some url.

(** ** The world outside the program *)

(** A Go [error] value, told apart by the package it comes from. *)
Inductive error :=
  | os_error (msg : string)       (* package os: the temporary file *)
  | net_error (msg : string)      (* package net/http: the request, the body *)
  | archive_error (msg : string)  (* compress/gzip and archive/tar, with the
                                     io.EOF a reader of theirs passes on *)
  | fmt_error (msg : string).     (* made by fmt.Errorf *)

Inductive result (A : Type) :=
  | ok (a : A)
  | failed (msg : string).
Arguments ok {A} a.
Arguments failed {A} msg.

(** An HTTP response: the status, the bytes that reading [Body] yields, and
    the error, if any, that ends the reading instead of a clean end. *)
Record Response := {
  StatusCode : Z;
  Body : list byte;
  BodyErr : option string
}.

(** [tar.Header], of which the program reads the name only. *)
Record tar_Header := { Name : string }.

(** Everything the program does not decide: the operating system, the
    network and the decoders of the standard library for what was
    downloaded. *)
Record World := {
  (** [ioutil.TempFile], by the number of files made before: the name of the
      new, empty file. *)
  world_temp_file : nat -> result string;
  (** [http.Get], by the requests made before and the URL. *)
  world_http_get : list string -> string -> result Response;
  (** The error, if any, of writing to the file of this name. *)
  world_write : string -> option string;
  (** The error, if any, of opening the file of this name for reading. *)
  world_read : string -> option string;
  (** The error, if any, that [gzip.NewReader] finds in the header. *)
  world_gzip_header : list byte -> option string;
  (** The headers that the calls of [Next] return one after the other on a
      tar reader over the gzip reader over these bytes, and the error that
      comes after the last of them: io.EOF at the end of a complete
      archive, the error of the decoder otherwise. *)
  world_tar_entries : list byte -> list tar_Header * string
}.

(** What the program changes: the files, the requests sent (the last one
    first), and how many temporary files were made. *)
Record State := {
  files : gmap string (list byte);
  requests : list string;
  temp_files : nat
}.

(** How a call ends: with results and a nil error, with an error, or in a
    panic. *)
Inductive outcome (A : Type) :=
  | Ret (a : A)
  | Fail (e : error)
  | Panic.
Arguments Ret {A} a.
Arguments Fail {A} e.
Arguments Panic {A}.

Definition M (A : Type) : Type := State -> outcome A * State.

#[export] Instance M_ret : MRet M := fun A a st => (Ret a, st).

#[export] Instance M_bind : MBind M := fun A B k m st =>
  match m st with
  | (Ret a, st') => k a st'
  | (Fail e, st') => (Fail e, st')
  | (Panic, st') => (Panic, st')
  end.

(** A failed index or slice expression is a panic. *)
Definition or_panic {A} (o : option A) : M A := fun st =>
  match o with
  | Some a => (Ret a, st)
  | None => (Panic, st)
  end.

Definition throw {A} (e : error) : M A := fun st => (Fail e, st).

(** [v, err := call] followed by a test of [err]: the error becomes a value
    the caller looks at. *)
Definition attempt {A} (m : M A) : M (error + A) := fun st =>
  match m st with
  | (Ret a, st') => (Ret (inr a), st')
  | (Fail e, st') => (Ret (inl e), st')
  | (Panic, st') => (Panic, st')
  end.

(** [defer cleanup] at the head of [body]: [cleanup] runs when [body] is
    left, however it is left, and what it returns is dropped. *)
Definition defer {A} (cleanup : M unit) (body : M A) : M A := fun st =>
  let '(r, st') := body st in (r, snd (cleanup st')).

Section library.

Context (w : World).

Definition ioutil_TempFile : M string := fun st =>
  match world_temp_file w (temp_files st) with
  | ok name =>
      (Ret name, {| files := <[name := []]> (files st);
                    requests := requests st;
                    temp_files := S (temp_files st) |})
  | failed msg => (Fail (os_error msg), st)
  end.

Definition os_Remove (name : string) : M unit := fun st =>
  (Ret (), {| files := delete name (files st);
              requests := requests st;
              temp_files := temp_files st |}).

Definition ioutil_ReadFile (name : string) : M (list byte) := fun st =>
  match world_read w name with
  | Some msg => (Fail (os_error msg), st)
  | None =>
      match files st !! name with
      | Some b => (Ret b, st)
      | None => (Fail (os_error "no such file or directory"), st)
      end
  end.

Definition http_Get (u : string) : M Response := fun st =>
  let st' := {| files := files st;
                requests := u :: requests st;
                temp_files := temp_files st |} in
  match world_http_get w (requests st) u with
  | ok resp => (Ret resp, st')
  | failed msg => (Fail (net_error msg), st')
  end.

(** [io.Copy(f, resp.Body)], [f] being the open file of name [f]: what the
    body yields is appended to the file; the copy stops at the first
    error, of the write or of the body. *)
Definition io_Copy (f : string) (resp : Response) : M unit := fun st =>
  match Body resp, world_write w f with
  | _ :: _, Some msg => (Fail (os_error msg), st)
  | _, _ =>
      let st' := {| files := <[f := default [] (files st !! f) ++ Body resp]> (files st);
                    requests := requests st;
                    temp_files := temp_files st |} in
      match BodyErr resp with
      | Some msg => (Fail (net_error msg), st')
      | None => (Ret (), st')
      end
  end.

(** [gzip.NewReader(bytes.NewReader(b))]; the reader stands for [b]. *)
Definition gzip_NewReader (b : list byte) : M (list byte) := fun st =>
  match world_gzip_header w b with
  | Some msg => (Fail (archive_error msg), st)
  | None => (Ret b, st)
  end.

(** A [tar.Reader]: the headers it has yet to return and the error that
    follows them. *)
Record tar_Reader := {
  pending : list tar_Header;
  final : string
}.

Definition tar_NewReader (gzf : list byte) : tar_Reader :=
  {| pending := fst (world_tar_entries w gzf);
     final := snd (world_tar_entries w gzf) |}.

(** [tarReader.Next()], with the reader as it is afterwards. *)
Definition tar_Next (r : tar_Reader) : M (tar_Header * tar_Reader) := fun st =>
  match pending r with
  | head :: rest => (Ret (head, {| pending := rest; final := final r |}), st)
  | [] => (Fail (archive_error (final r)), st)
  end.

End library.

(** ** The archive prober *)

Section prober.

Context (w : World).

(** [downloadFile(f, url)]; [f] is the file by its name. *)
Definition downloadFile (f : string) (url : string) : M unit :=
  resp ← http_Get w url;
  (* defer resp.Body.Close() *)
  io_Copy w f resp.

Definition githubTarball (url revision : string) : M RemoteTarball :=
  let tarball := fmt.Sprintf "%v.tar.gz" [revision] in
  filename ← ioutil_TempFile w;
  defer (os_Remove filename) (
    let downloadURL := fmt.Sprintf "%v/archive/%v" [url; tarball] in
    _ ← downloadFile filename downloadURL;
    b ← ioutil_ReadFile w filename;
    gzf ← gzip_NewReader w b;
    let tarReader := tar_NewReader w gzf in
    '(head, tarReader) ← tar_Next tarReader;
    '(head, tarReader) ← tar_Next tarReader;
    let stripPrefix := Name head in
    let sha := fmt.Sprintf_x (crypto_sha256.Sum256 b) in
    mret {| url := downloadURL; stripPrefix := stripPrefix; sha256 := sha |}).

Definition googlesourceTarball (url revision : string) : M RemoteTarball :=
  mret {| url := fmt.Sprintf "%v/+archive/%v.tar.gz" [url; revision];
          stripPrefix := EmptyString;
          sha256 := EmptyString |}.

(** In its last branch the Go function returns an empty tarball beside the
    error; no caller reads it. *)
Definition tryTarball (url revision : string) : M RemoteTarball :=
  if strings.HasPrefix url "https://github.com/" then githubTarball url revision
  else if strings.HasPrefix url "https://go.googlesource.com/"
  then googlesourceTarball url revision
  else throw (fmt_error (fmt.Sprintf "Unknown server" [])).

(** ** The resolver *)

Definition remoteRepository (url importName revision : string) : M repository :=
  remappedURL ← or_panic (remapURL url);
  (* First, the remapped URL. *)
  r ← attempt (tryTarball remappedURL revision);
  match r with
  | inr tarball => mret (Tarball tarball)
  | inl err =>
      (* Then, the original URL. *)
      r ← attempt (tryTarball url revision);
      match r with
      | inr tarball => mret (Tarball tarball)
      | inl err => mret (GitRepo {| revision := revision |})
      end
  end.

End prober.

(** The kinds of error of the specification, and the kind of each error. *)
Module ErrorTaxonomy.

Inductive kind :=
  | FetchError
  | ArchiveFormatError
  | UnsupportedHostError
  | FileSystemError.

Definition classify (e : error) : kind :=
  match e with
  | net_error _ => FetchError
  | archive_error _ => ArchiveFormatError
  | fmt_error _ => UnsupportedHostError
  | os_error _ => FileSystemError
  end.

End ErrorTaxonomy.

(** ** The steps of the github probe that can fail *)

Inductive probe_step :=
  | CreateTemp    (* ioutil.TempFile *)
  | Request       (* http.Get *)
  | WriteBody     (* io.Copy, writing the file *)
  | ReadBody      (* io.Copy, reading the response *)
  | ReadBack      (* ioutil.ReadFile *)
  | GzipHeader    (* gzip.NewReader *)
  | FirstEntry    (* the first tarReader.Next *)
  | SecondEntry.  (* the second tarReader.Next *)

Definition kind_of_step (step : probe_step) : ErrorTaxonomy.kind :=
  match step with
  | Request | ReadBody => ErrorTaxonomy.FetchError
  | GzipHeader | FirstEntry | SecondEntry => ErrorTaxonomy.ArchiveFormatError
  | CreateTemp | WriteBody | ReadBack => ErrorTaxonomy.FileSystemError
  end.

Section probe_steps.

Context (w : World) (hostURL revision : string) (st : State).

Let downloadURL : string := hostURL +:+ "/archive/" +:+ revision +:+ ".tar.gz".

(** The archive arrived in the temporary file [filename]. *)
Definition downloaded (filename : string) (resp : Response) : Prop :=
  world_temp_file w (temp_files st) = ok filename
  /\ world_http_get w (requests st) downloadURL = ok resp
  /\ (Body resp = [] \/ world_write w filename = None)
  /\ BodyErr resp = None.

(** [fails_at step e]: every step before [step] went well and [step]
    failed with the error [e]. *)
Inductive fails_at : probe_step -> error -> Prop :=
  | fails_CreateTemp msg :
      world_temp_file w (temp_files st) = failed msg ->
      fails_at CreateTemp (os_error msg)
  | fails_Request filename msg :
      world_temp_file w (temp_files st) = ok filename ->
      world_http_get w (requests st) downloadURL = failed msg ->
      fails_at Request (net_error msg)
  | fails_WriteBody filename resp msg :
      world_temp_file w (temp_files st) = ok filename ->
      world_http_get w (requests st) downloadURL = ok resp ->
      Body resp <> [] ->
      world_write w filename = Some msg ->
      fails_at WriteBody (os_error msg)
  | fails_ReadBody filename resp msg :
      world_temp_file w (temp_files st) = ok filename ->
      world_http_get w (requests st) downloadURL = ok resp ->
      Body resp = [] \/ world_write w filename = None ->
      BodyErr resp = Some msg ->
      fails_at ReadBody (net_error msg)
  | fails_ReadBack filename resp msg :
      downloaded filename resp ->
      world_read w filename = Some msg ->
      fails_at ReadBack (os_error msg)
  | fails_GzipHeader filename resp msg :
      downloaded filename resp ->
      world_read w filename = None ->
      world_gzip_header w (Body resp) = Some msg ->
      fails_at GzipHeader (archive_error msg)
  | fails_FirstEntry filename resp final :
      downloaded filename resp ->
      world_read w filename = None ->
      world_gzip_header w (Body resp) = None ->
      world_tar_entries w (Body resp) = ([], final) ->
      fails_at FirstEntry (archive_error final)
  | fails_SecondEntry filename resp first final :
      downloaded filename resp ->
      world_read w filename = None ->
      world_gzip_header w (Body resp) = None ->
      world_tar_entries w (Body resp) = ([first], final) ->
      fails_at SecondEntry (archive_error final).

(** What a tarball that the probe returns is made of: the download URL,
    the name of the second entry of the archive that was downloaded, and
    the digest of the downloaded bytes in hexadecimal. *)
Definition probed (t : RemoteTarball) : Prop :=
  exists filename resp first second rest final,
    downloaded filename resp
    /\ world_tar_entries w (Body resp) = (first :: second :: rest, final)
    /\ url t = downloadURL
    /\ stripPrefix t = Name second
    /\ sha256 t = fmt.Sprintf_x (crypto_sha256.Sum256 (Body resp)).

End probe_steps.

(** The claim C8 as the specification states it: an error of the github
    probe is a fetch error or an archive format error, and nothing else. *)
Definition only_fetch_and_archive_errors : Prop :=
  forall (w : World) (url revision : string) (st : State) (e : error),
    (githubTarball w url revision st).1 = Fail e ->
    ErrorTaxonomy.classify e = ErrorTaxonomy.FetchError
    \/ ErrorTaxonomy.classify e = ErrorTaxonomy.ArchiveFormatError.

(** ** Sample worlds *)

Definition initial_state : State :=
  {| files := ∅; requests := []; temp_files := 0 |}.

Definition sample_archive : list byte := [x1f; x8b; x08; x00; x61; x62; x63].

(** A world in which github.com serves one archive, of two entries. *)
Definition sample_world : World :=
  {| world_temp_file := fun n => ok ("/tmp/" +:+ String.concat "" (replicate n "0"));
     world_http_get := fun _ u =>
       if decide (u = "https://github.com/pkg/errors/archive/abc123.tar.gz")
       then ok {| StatusCode := 200; Body := sample_archive; BodyErr := None |}
       else ok {| StatusCode := 404; Body := []; BodyErr := None |};
     world_write := fun _ => None;
     world_read := fun _ => None;
     world_gzip_header := fun b =>
       match b with
       | x1f :: x8b :: _ => None
       | [] => Some "EOF"
       | _ => Some "gzip: invalid header"
       end;
     world_tar_entries := fun b =>
       match b with
       | [] => ([], "EOF")
       | _ => ([ {| Name := "pax_global_header" |}; {| Name := "errors-abc123/" |} ],
               "EOF")
       end |}.

(** The same world with a directory of temporary files that cannot be
    written to. *)
Definition readonly_tmp_world : World :=
  {| world_temp_file := fun _ => failed "open /tmp/000: permission denied";
     world_http_get := world_http_get sample_world;
     world_write := world_write sample_world;
     world_read := world_read sample_world;
     world_gzip_header := world_gzip_header sample_world;
     world_tar_entries := world_tar_entries sample_world |}.

(** ** The unused template *)

(** The constant [repoTemplateNoChecksum], a raw string literal. *)
Definition repoTemplateNoChecksum : string :=
  newline
  +:+ "    go_repository(" +:+ newline
  +:+ "        name = " +:+ dquote +:+ "%v" +:+ dquote +:+ "," +:+ newline
  +:+ "        importpath = " +:+ dquote +:+ "%v" +:+ dquote +:+ "," +:+ newline
  +:+ "        urls = [" +:+ dquote +:+ "%v" +:+ dquote +:+ "]," +:+ newline
  +:+ "        strip_prefix = " +:+ dquote +:+ "%v" +:+ dquote +:+ "," +:+ newline
  +:+ "        build_file_proto_mode = " +:+ dquote +:+ "disable" +:+ dquote +:+ ","
  +:+ newline
  +:+ "    )" +:+ newline.

(** ** White space *)

(** The bytes [s] is made of. *)
Definition bytes_in (s : string) : list ascii := String.list_ascii_of_string s.

Fixpoint string_rev (s : string) : string :=
  match s with
  | EmptyString => EmptyString
  | String c s' => string_rev s' +:+ String c EmptyString
  end.

(** The white space of [unicode.IsSpace] below U+0080: tab, line feed,
    vertical tab, form feed, carriage return and space. *)
Definition ascii_space (c : ascii) : bool :=
  let n := N_of_ascii c in
  ((9 <=? n)%N && (n <=? 13)%N || (n =? 32)%N)%bool.

(** Third byte of the white space that UTF-8 writes E2 80 xx: U+2000 to
    U+200A, U+2028, U+2029 and U+202F. *)
Definition general_punctuation_space (c : ascii) : bool :=
  let n := N_of_ascii c in
  ((128 <=? n)%N && (n <=? 138)%N || (n =? 168)%N || (n =? 169)%N || (n =? 175)%N)%bool.

(** White space is taken off the front, rune by rune: the six of ASCII,
    U+0085 and U+00A0 (C2 85, C2 A0), U+1680 (E1 9A 80), those of the
    general punctuation, U+205F (E2 81 9F) and U+3000 (E3 80 80). *)
Fixpoint trim_left_space (s : string) : string :=
  match s with
  | EmptyString => EmptyString
  | String c rest =>
      if ascii_space c then trim_left_space rest
      else
        match s with
        | String "194" (String c2 rest2) =>
            if (Ascii.eqb c2 "133" || Ascii.eqb c2 "160")%bool
            then trim_left_space rest2 else s
        | String "225" (String "154" (String "128" rest3)) => trim_left_space rest3
        | String "226" (String "128" (String c3 rest3)) =>
            if general_punctuation_space c3 then trim_left_space rest3 else s
        | String "226" (String "129" (String "159" rest3)) => trim_left_space rest3
        | String "227" (String "128" (String "128" rest3)) => trim_left_space rest3
        | _ => s
        end
  end.

(** The same off the end, on the text read backwards: the last rune is the
    one whose bytes end the text. *)
Fixpoint trim_left_space_backwards (s : string) : string :=
  match s with
  | EmptyString => EmptyString
  | String c rest =>
      if ascii_space c then trim_left_space_backwards rest
      else
        match s with
        | String c2 (String "194" rest2) =>
            if (Ascii.eqb c2 "133" || Ascii.eqb c2 "160")%bool
            then trim_left_space_backwards rest2 else s
        | String "128" (String "154" (String "225" rest3)) =>
            trim_left_space_backwards rest3
        | String "159" (String "129" (String "226" rest3)) =>
            trim_left_space_backwards rest3
        | String "128" (String "128" (String "227" rest3)) =>
            trim_left_space_backwards rest3
        | String c3 (String "128" (String "226" rest3)) =>
            if general_punctuation_space c3 then trim_left_space_backwards rest3 else s
        | _ => s
        end
  end.

(** [strings.TrimSpace(s)]: [s] without the white space, as Unicode defines
    it, at its front and at its end. *)
Definition strings_TrimSpace (s : string) : string :=
  string_rev (trim_left_space_backwards (string_rev (trim_left_space s))).

(** ** The lock file *)

Module lockfile.

(** [LockedProject], one locked project of Gopkg.lock. *)
Record LockedProject := {
  Name : string;
  Branch : string;
  Revision : string;
  Version : string;
  Source : string;
  Packages : list string
}.

(** [Lock], the parsed file. *)
Record Lock := { Projects : list LockedProject }.

End lockfile.

(** [vcs.RepoRoot], of which the program reads the repository URL only. *)
Record RepoRoot := { Repo : string }.

(** What the process is started with, and the two libraries of others that
    [main] calls: the arguments, [toml.Unmarshal] into a [Lock], and
    [vcs.RepoRootForImportPath] by import path. *)
Record Env := {
  os_Args : list string;
  toml_Unmarshal : list byte -> result lockfile.Lock;
  vcs_RepoRootForImportPath : string -> result RepoRoot
}.

(** ** The process *)

(** What was written to the two streams, and the state of the world. *)
Record Process := {
  stdout : string;
  stderr : string;
  machine : State
}.

(** How the process ends: [os.Exit] with a code (returning from [main] is
    code 0), or a panic. *)
Inductive status :=
  | Exited (code : Z)
  | Panicked.

Inductive step (A : Type) :=
  | Next (a : A)
  | Stop (s : status).
Arguments Next {A} a.
Arguments Stop {A} s.

Definition Proc (A : Type) : Type := Process -> step A * Process.

#[export] Instance Proc_ret : MRet Proc := fun A a p => (Next a, p).

#[export] Instance Proc_bind : MBind Proc := fun A B k m p =>
  match m p with
  | (Next a, p') => k a p'
  | (Stop s, p') => (Stop s, p')
  end.

Definition os_Exit {A} (code : Z) : Proc A := fun p => (Stop (Exited code), p).

Definition write_stdout (text : string) : Proc unit := fun p =>
  (Next (), {| stdout := stdout p +:+ text; stderr := stderr p; machine := machine p |}).

Definition write_stderr (text : string) : Proc unit := fun p =>
  (Next (), {| stdout := stdout p; stderr := stderr p +:+ text; machine := machine p |}).

(** The text of an error, its method [Error]. *)
Definition Error (e : error) : string :=
  match e with
  | os_error msg | net_error msg | archive_error msg | fmt_error msg => msg
  end.

(** [fmt.Sprintln]: the operands with a space between each two, and a new
    line. *)
Definition fmt_Sprintln (a : list string) : string := strings.Join a " " +:+ newline.

(** A call [v, err := f(...)] of a function of the monad [M], made by the
    process: a panic ends the process. *)
Definition call {A} (m : M A) : Proc (error + A) := fun p =>
  let set (st : State) := {| stdout := stdout p; stderr := stderr p; machine := st |} in
  match m (machine p) with
  | (Ret a, st) => (Next (inr a), set st)
  | (Fail e, st) => (Next (inl e), set st)
  | (Panic, st) => (Stop Panicked, set st)
  end.

Definition must {A} (o : option A) : Proc A := fun p =>
  match o with
  | Some a => (Next a, p)
  | None => (Stop Panicked, p)
  end.

(** [usage()]: it does not return. *)
Definition usage : Proc unit :=
  _ ← write_stdout (fmt_Sprintln ["usage: dep2bazel path/to/Gopkg.lock"]);
  os_Exit 1.

(** The first lines of the output. *)
Definition header : string :=
  "# This file is autogenerated with dep2bazel, do not edit." +:+ newline
  +:+ "load(" +:+ dquote +:+ "@io_bazel_rules_go//go:def.bzl" +:+ dquote +:+ ", "
  +:+ dquote +:+ "go_repository" +:+ dquote +:+ ")" +:+ newline
  +:+ newline
  +:+ "def go_deps():" +:+ newline.

(** The body of the loop of [main] for one project. *)
Definition main_project (w : World) (env : Env) (lp : lockfile.LockedProject)
    : Proc unit :=
  match vcs_RepoRootForImportPath env (lockfile.Name lp) with
  | failed msg =>
      (* fmt.Println(err); continue *)
      write_stdout (fmt_Sprintln [msg])
  | ok root =>
      let importpath := lockfile.Name lp in
      r ← call (remoteRepository w (Repo root) (lockfile.Name lp) (lockfile.Revision lp));
      match r with
      | inl err =>
          write_stderr
            (fmt.Sprintf ("failed to parse %v (%v@%v): %v" +:+ newline)
               [lockfile.Name lp; Repo root; lockfile.Revision lp; Error err])
      | inr repo =>
          name ← must (bazelName importpath);
          write_stdout (GetRepoString repo name importpath)
      end
  end.

(** [for _, lp := range raw.Projects]. *)
Fixpoint main_loop (w : World) (env : Env) (projects : list lockfile.LockedProject)
    : Proc unit :=
  match projects with
  | [] => mret ()
  | lp :: rest => _ ← main_project w env lp; main_loop w env rest
  end.

Definition main (w : World) (env : Env) : Proc unit :=
  _ ← (if decide (length (os_Args env) <> 2) then usage else mret ());
  arg ← must (os_Args env !! 1%nat);
  let filename := strings_TrimSpace arg in
  _ ← (if decide (filename = EmptyString) then usage else mret ());
  r ← call (ioutil_ReadFile w filename);
  match r with
  | inl err =>
      _ ← write_stderr (fmt_Sprintln ["failed to read Gopkg.lock"; Error err]);
      os_Exit 1
  | inr content =>
      match toml_Unmarshal env content with
      | failed msg =>
          _ ← write_stderr (fmt_Sprintln ["failed to parse Gopkg.lock"; msg]);
          os_Exit 1
      | ok raw =>
          _ ← write_stdout (fmt.Sprintf header []);
          main_loop w env (lockfile.Projects raw)
      end
  end.

(** The process from its start to its end: nothing written yet; a return
    from [main] is the exit code 0. *)
Definition start (st : State) : Process :=
  {| stdout := EmptyString; stderr := EmptyString; machine := st |}.

Definition run (w : World) (env : Env) (st : State) : status * Process :=
  match main w env (start st) with
  | (Next _, p) => (Exited 0, p)
  | (Stop s, p) => (s, p)
  end.

(** ** Worlds that differ in the status of the responses only *)

Definition with_status (status_of : list string -> string -> Z) (w : World) : World :=
  {| world_temp_file := world_temp_file w;
     world_http_get := fun before u =>
       match world_http_get w before u with
       | ok resp => ok {| StatusCode := status_of before u;
                          Body := Body resp;
                          BodyErr := BodyErr resp |}
       | failed msg => failed msg
       end;
     world_write := world_write w;
     world_read := world_read w;
     world_gzip_header := world_gzip_header w;
     world_tar_entries := world_tar_entries w |}.

(** ** What [bazelName] makes of the path after the host *)

(** Slash, dash and dot become an underscore. *)
Definition squash_byte (c : ascii) : ascii :=
  if (Ascii.eqb c "/" || Ascii.eqb c "-" || Ascii.eqb c ".")%bool then "_"%char else c.

Definition squash (s : string) : string := NamingSpec.map_bytes squash_byte s.

(** The name of the host alone. *)
Definition host_name (host : string) : string :=
  strings.Replace (strings.NewReplacer [("-", "_"); (".", "_")]%char)
    (strings.Join (rev (strings.Split host ".")) "_").

(** ** The output of the loop *)

(** What one project adds to the output: the text of the error, on a line
    of its own, when its import path has no repository root; otherwise the
    rule of the repository that the resolver returns, under the name that
    [bazelName] gives. *)
Definition piece_of (w : World) (env : Env) (lp : lockfile.LockedProject)
    (st : State) (piece : string) (st' : State) : Prop :=
  match vcs_RepoRootForImportPath env (lockfile.Name lp) with
  | failed msg => piece = msg +:+ newline /\ st' = st
  | ok root =>
      exists repo name,
        remoteRepository w (Repo root) (lockfile.Name lp) (lockfile.Revision lp) st
        = (Ret repo, st')
        /\ bazelName (lockfile.Name lp) = Some name
        /\ piece = GetRepoString repo name (lockfile.Name lp)
  end.


(** The pieces of a list of projects, one after the other, the state of
    the world going from each to the next. *)
Fixpoint pieces_of (w : World) (env : Env) (projects : list lockfile.LockedProject)
    (st : State) (pieces : list string) (st' : State) : Prop :=
  match projects, pieces with
  | [], [] => st' = st
  | lp :: rest, piece :: more =>
      exists st1, piece_of w env lp st piece st1 /\ pieces_of w env rest st1 more st'
  | _, _ => False
  end.

(** ** A sample process *)

Definition sample_lock : lockfile.Lock :=
  {| lockfile.Projects :=
       [ {| lockfile.Name := "github.com/pkg/errors"; lockfile.Branch := EmptyString;
            lockfile.Revision := "abc123"; lockfile.Version := "v0.8.0";
            lockfile.Source := EmptyString; lockfile.Packages := ["."] |};
         {| lockfile.Name := "example.org/private"; lockfile.Branch := EmptyString;
            lockfile.Revision := "def456"; lockfile.Version := EmptyString;
            lockfile.Source := EmptyString; lockfile.Packages := ["."] |};
         {| lockfile.Name := "example.com/pkg"; lockfile.Branch := "master";
            lockfile.Revision := "0a1b2c"; lockfile.Version := EmptyString;
            lockfile.Source := EmptyString; lockfile.Packages := ["."] |} ] |}.

(** The lock file is Gopkg.lock; one of its three import paths has no
    repository root. *)
Definition sample_env : Env :=
  {| os_Args := ["dep2bazel"; " Gopkg.lock "];
     toml_Unmarshal := fun content =>
       match content with
       | [] => failed "toml: empty input"
       | _ => ok sample_lock
       end;
     vcs_RepoRootForImportPath := fun importPath =>
       if decide (importPath = "example.org/private")
       then failed "unrecognized import path"
       else ok {| Repo := "https://" +:+ importPath |} |}.

Definition sample_files : State :=
  {| files := {[ "Gopkg.lock" := [x5b; x5b; x70] ]}; requests := []; temp_files := 0 |}.

(** ** Facts about the naming *)

Lemma Split_nonempty s sep : strings.Split s sep <> [].
Proof.
  destruct s as [|c s]; simpl; [done|].
  destruct (Ascii.eqb c sep); [done|].
  by destruct (strings.Split s sep).
Qed.

Lemma bazelName_loop_rev hostparts n slice :
  n <= length hostparts ->
  bazelName_loop hostparts n slice = Some (slice ++ rev (take n hostparts)).
Proof.
  revert slice. induction n as [|i IH]; intros slice Hn; simpl.
  - by rewrite app_nil_r.
  - destruct (lookup_lt_is_Some_2 hostparts i) as [part Hpart]; [lia|].
    rewrite Hpart. simpl. rewrite IH by lia.
    rewrite (take_S_r _ _ _ Hpart), rev_app_distr. simpl.
    by rewrite <- app_assoc.
Qed.

Lemma Replace_dash_dot s :
  strings.Replace (strings.NewReplacer [("-", "_"); (".", "_")]%char) s
  = NamingSpec.map_bytes NamingSpec.replace_dash_dot s.
Proof.
  induction s as [|c s IH]; simpl; [done|]. f_equal; [|done].
  unfold NamingSpec.replace_dash_dot.
  destruct (Ascii.eqb c "-") eqn:Hdash.
  { apply Ascii.eqb_eq in Hdash. destruct (decide _) as [_|Hno]; tauto. }
  destruct (Ascii.eqb c ".") eqn:Hdot.
  { apply Ascii.eqb_eq in Hdot. destruct (decide _) as [_|Hno]; tauto. }
  apply Ascii.eqb_neq in Hdash, Hdot. destruct (decide _) as [[?|?]|_]; done.
Qed.

(** C4. For every import path, [bazelName] returns (without panicking) the
    name the specification describes: split on the slash, split the host on
    the dot, reverse the host labels, append the remaining segments, join
    with an underscore and replace every dash and dot by an underscore.  In
    particular the path of dep2bazel itself is named
    com_github_scele_dep2bazel, and, [bazelName] being a function, two calls
    on one path agree. *)
Theorem bazelName_refines_spec :
  (forall importpath, bazelName importpath = Some (NamingSpec.Name importpath))
  /\ bazelName "github.com/scele/dep2bazel" = Some "com_github_scele_dep2bazel"
  /\ (forall p q, p = q -> bazelName p = bazelName q).
Proof.
  split; [|split].
  - intros importpath. unfold bazelName, NamingSpec.Name.
    pose proof (Split_nonempty importpath "/") as Hne.
    destruct (strings.Split importpath "/") as [|parts0 rest]; [done|].
    simpl. rewrite bazelName_loop_rev by done. simpl.
    rewrite firstn_all, drop_0. by rewrite Replace_dash_dot.
  - vm_compute. reflexivity.
  - by intros p q ->.
Qed.

(** ** Facts about the rendering *)

Lemma string_app_assoc (a b c : string) : (a +:+ b) +:+ c = a +:+ (b +:+ c).
Proof.
  induction a as [|x a IH]; [done|].
  change (String x ((a +:+ b) +:+ c) = String x (a +:+ b +:+ c)). by rewrite IH.
Qed.

Lemma string_app_nil_r (a : string) : a +:+ EmptyString = a.
Proof.
  induction a as [|x a IH]; [done|].
  change (String x (a +:+ EmptyString) = String x a). by rewrite IH.
Qed.

Lemma string_app_cons (x : ascii) (a b : string) :
  String x a +:+ b = String x (a +:+ b).
Proof. reflexivity. Qed.

Lemma string_app_nil_l (a : string) : EmptyString +:+ a = a.
Proof. reflexivity. Qed.

Create Rewrite HintDb string_norm.
#[export] Hint Rewrite string_app_assoc string_app_cons string_app_nil_l
  string_app_nil_r : string_norm.

(** Both sides of a rendering equation are brought to one shape: appends
    nested to the right and every literal pushed into its constructors,
    first inside the formats, then in what [Sprintf] makes of them. *)
Ltac string_normal :=
  unfold dquote, newline;
  autorewrite with string_norm;
  cbv [fmt.Sprintf fmt.extra];
  autorewrite with string_norm.

(** C5. [GetRepoString] is a total function of the descriptor, and its text
    is the rule block with exactly these fields in this order: for a tarball
    name, importpath, urls (a list of one), strip_prefix, sha256 exactly
    when the checksum is not empty, and the fixed proto-mode line; for a git
    repository name, importpath, commit (the stored revision) and the same
    fixed line, and no other field. *)
Theorem GetRepoString_fields (name importPath : string) :
  (forall t : RemoteTarball,
     GetRepoString (Tarball t) name importPath
     = RenderSpec.block (RenderSpec.tarball_fields name importPath t))
  /\ (forall g : RemoteGitRepo,
     GetRepoString (GitRepo g) name importPath
     = RenderSpec.block (RenderSpec.vcs_fields name importPath g)).
Proof.
  split.
  - intros [u p h]. unfold GetRepoString; simpl.
    unfold RenderSpec.block, RenderSpec.tarball_fields, RenderSpec.proto_mode_disabled,
      RenderSpec.field, RenderSpec.quoted; simpl.
    destruct (decide (h <> EmptyString)) as [Hh|Hh];
      destruct (decide (h = EmptyString)) as [Hh'|Hh']; try done;
      simpl; string_normal; reflexivity.
  - intros [r]. unfold GetRepoString; simpl.
    unfold RenderSpec.block, RenderSpec.vcs_fields, RenderSpec.proto_mode_disabled,
      RenderSpec.field, RenderSpec.quoted; simpl.
    string_normal; reflexivity.
Qed.

(** ** Facts about the matcher *)

Section matcher_invariant.

Lemma follows_refl i s : follows i s i s.
Proof. by split. Qed.

Lemma follows_trans i s j s' j2 s2 :
  follows i s j s' -> follows j s' j2 s2 -> follows i s j2 s2.
Proof. unfold follows. lia. Qed.

Lemma strip_literal_length lit s s' :
  strip_literal lit s = Some s' ->
  String.length s = String.length lit + String.length s'.
Proof.
  revert s. induction lit as [|a lit IH]; intros s; simpl.
  - by intros [= ->].
  - destruct s as [|b s]; [done|]. destruct (Ascii.eqb a b); [|done].
    intros Hs. apply IH in Hs. simpl. lia.
Qed.

(** The step of all proofs below: a round of [Hbody] followed by a rest of
    [Hrest] is one step of the whole. *)
Ltac chain Hbody Hrest H :=
  let j := fresh "j" in
  let s' := fresh "s'" in
  let c' := fresh "c'" in
  let Hfol := fresh "Hfol" in
  let Hlen := fresh "Hlen" in
  let H2 := fresh "H" in
  apply Hbody in H as (j & s' & c' & Hfol & Hlen & H2);
  let j2 := fresh "j" in
  let s2 := fresh "s'" in
  let c2 := fresh "c'" in
  let Hfol2 := fresh "Hfol" in
  let Hlen2 := fresh "Hlen" in
  let Hk := fresh "Hk" in
  apply Hrest in H2 as (j2 & s2 & c2 & Hfol2 & Hlen2 & Hk);
  exists j2, s2, c2;
  split; [by eapply follows_trans|split; [congruence|done]].

Lemma star_loop_keeps_groups body fuel :
  keeps_groups body -> keeps_groups (star_loop body fuel).
Proof.
  intros Hbody. induction fuel as [|fuel IH]; intros i s c k found; simpl.
  - intros Hk. exists i, s, c. by split; [apply follows_refl|].
  - destruct (body i s c _) as [found'|] eqn:Hround.
    + intros [= ->]. apply Hbody in Hround as (j & s' & c' & Hfol & Hlen & Hrest).
      destruct (j =? i)%nat; [done|].
      apply IH in Hrest as (j2 & s2 & c2 & Hfol2 & Hlen2 & Hk).
      exists j2, s2, c2.
      split; [by eapply follows_trans|split; [congruence|done]].
    + intros Hk. exists i, s, c. by split; [apply follows_refl|].
Qed.

Lemma quest_loop_keeps_groups body n :
  keeps_groups body -> keeps_groups (quest_loop body n).
Proof.
  intros Hbody. induction n as [|n IH]; intros i s c k found; simpl.
  - intros Hk. exists i, s, c. by split; [apply follows_refl|].
  - destruct (body i s c _) as [found'|] eqn:Hround.
    + intros [= ->]. chain Hbody IH Hround.
    + intros Hk. exists i, s, c. by split; [apply follows_refl|].
Qed.

Lemma times_loop_keeps_groups body n next :
  keeps_groups body -> keeps_groups next -> keeps_groups (times_loop body n next).
Proof.
  intros Hbody Hnext. induction n as [|n IH]; intros i s c k found; simpl.
  - apply Hnext.
  - intros Hround. chain Hbody IH Hround.
Qed.

Lemma match_here_keeps_groups re : keeps_groups (match_here re).
Proof.
  induction re as [|lit|ranges| | |index sub IH|sub IH|sub IH|sub IH
                  |min max sub IH|sub1 IH1 sub2 IH2|sub1 IH1 sub2 IH2];
    intros i s c k found; simpl.
  - intros Hk. exists i, s, c. by split; [apply follows_refl|].
  - destruct (strip_literal lit s) as [s'|] eqn:Hlit; [|done].
    apply strip_literal_length in Hlit.
    intros Hk. exists (i + String.length lit), s', c.
    split; [unfold follows; lia|done].
  - destruct s as [|x s']; [done|]. destruct (in_class ranges x); [|done].
    intros Hk. exists (S i), s', c. split; [unfold follows; simpl; lia|done].
  - destruct (i =? 0)%nat; [|done]. intros Hk. exists i, s, c.
    by split; [apply follows_refl|].
  - destruct s; [|done]. intros Hk. exists i, EmptyString, c.
    by split; [apply follows_refl|].
  - intros Hsub. apply IH in Hsub as (j & s' & c' & Hfol & Hlen & Hk).
    exists j, s', (<[index := Some (i, j)]> c'). by rewrite length_insert.
  - by apply star_loop_keeps_groups.
  - intros Hsub. apply IH in Hsub as (j & s' & c' & Hfol & Hlen & Hrest).
    apply (star_loop_keeps_groups _ _ IH) in Hrest as (j2 & s2 & c2 & Hfol2 & Hlen2 & Hk).
    exists j2, s2, c2.
    split; [by eapply follows_trans|split; [congruence|done]].
  - by apply (quest_loop_keeps_groups _ 1).
  - by apply times_loop_keeps_groups; [|apply quest_loop_keeps_groups].
  - intros Hsub. chain IH1 IH2 Hsub.
  - destruct (match_here sub1 i s c k) as [found'|] eqn:Hleft.
    + intros [= ->]. by apply IH1 in Hleft.
    + apply IH2.
Qed.

Lemma star_loop_looks_ahead_only body fuel :
  looks_ahead_only body -> looks_ahead_only (star_loop body fuel).
Proof.
  intros Hbody. induction fuel as [|fuel IH]; intros i s c k1 k2 Hk; simpl.
  - apply Hk, follows_refl.
  - rewrite (Hk i s c (follows_refl i s)).
    rewrite (Hbody i s c _ (fun j s' c' =>
               if (j =? i)%nat then None else star_loop body fuel j s' c' k2)).
    { done. }
    intros j s' c' Hfol. destruct (j =? i)%nat; [done|].
    apply IH. intros j2 s2 c2 Hfol2. by eapply Hk, follows_trans.
Qed.

Lemma quest_loop_looks_ahead_only body n :
  looks_ahead_only body -> looks_ahead_only (quest_loop body n).
Proof.
  intros Hbody. induction n as [|n IH]; intros i s c k1 k2 Hk; simpl.
  - apply Hk, follows_refl.
  - rewrite (Hk i s c (follows_refl i s)).
    rewrite (Hbody i s c _ (fun j s' c' => quest_loop body n j s' c' k2)).
    { done. }
    intros j s' c' Hfol. apply IH. intros j2 s2 c2 Hfol2. by eapply Hk, follows_trans.
Qed.

Lemma times_loop_looks_ahead_only body n next :
  looks_ahead_only body -> looks_ahead_only next ->
  looks_ahead_only (times_loop body n next).
Proof.
  intros Hbody Hnext. induction n as [|n IH]; intros i s c k1 k2 Hk; simpl.
  - by apply Hnext.
  - apply Hbody. intros j s' c' Hfol.
    apply IH. intros j2 s2 c2 Hfol2. by eapply Hk, follows_trans.
Qed.

Lemma match_here_looks_ahead_only re : looks_ahead_only (match_here re).
Proof.
  induction re as [|lit|ranges| | |index sub IH|sub IH|sub IH|sub IH
                  |min max sub IH|sub1 IH1 sub2 IH2|sub1 IH1 sub2 IH2];
    intros i s c k1 k2 Hk; simpl.
  - apply Hk, follows_refl.
  - destruct (strip_literal lit s) as [s'|] eqn:Hlit; [|done].
    apply strip_literal_length in Hlit. apply Hk. unfold follows. lia.
  - destruct s as [|x s']; [done|]. destruct (in_class ranges x); [|done].
    apply Hk. unfold follows. simpl. lia.
  - destruct (i =? 0)%nat; [|done]. apply Hk, follows_refl.
  - destruct s; [|done]. apply Hk, follows_refl.
  - apply IH. intros j s' c' Hfol. by apply Hk.
  - by apply star_loop_looks_ahead_only.
  - apply IH. intros j s' c' Hfol.
    apply star_loop_looks_ahead_only; [done|].
    intros j2 s2 c2 Hfol2. by eapply Hk, follows_trans.
  - by apply (quest_loop_looks_ahead_only _ 1).
  - apply times_loop_looks_ahead_only;
      [done|by apply quest_loop_looks_ahead_only|done].
  - apply IH1. intros j s' c' Hfol.
    apply IH2. intros j2 s2 c2 Hfol2. by eapply Hk, follows_trans.
  - rewrite (IH1 i s c k1 k2 Hk). by rewrite (IH2 i s c k1 k2 Hk).
Qed.

(** The fuel of the iteration is enough: once it is the length of the text
    that remains, more fuel changes nothing. *)
Lemma star_loop_enough_fuel body fuel i s c k :
  keeps_groups body -> looks_ahead_only body ->
  String.length s <= fuel ->
  star_loop body (S fuel) i s c k = star_loop body fuel i s c k.
Proof.
  intros Hkeeps Hlocal. revert i s c.
  induction fuel as [|fuel IH]; intros i s c Hfuel.
  - simpl. destruct (body i s c _) as [found|] eqn:Hround; [|done].
    apply Hkeeps in Hround as (j & s' & c' & [Hle Hpos] & _ & Hnone).
    replace (j =? i)%nat with true in Hnone; [done|].
    symmetry. apply Nat.eqb_eq. lia.
  - change (star_loop body (S (S fuel)) i s c k) with
      (match body i s c (fun j s' c' =>
               if (j =? i)%nat then None else star_loop body (S fuel) j s' c' k)
       with Some found => Some found | None => k i s c end).
    change (star_loop body (S fuel) i s c k) with
      (match body i s c (fun j s' c' =>
               if (j =? i)%nat then None else star_loop body fuel j s' c' k)
       with Some found => Some found | None => k i s c end).
    rewrite (Hlocal i s c _ (fun j s' c' =>
               if (j =? i)%nat then None else star_loop body fuel j s' c' k)).
    { done. }
    intros j s' c' [Hle Hpos]. destruct (j =? i)%nat eqn:Hji; [done|].
    apply Nat.eqb_neq in Hji. apply IH. lia.
Qed.

Lemma star_loop_any_fuel re more i s c k :
  star_loop (match_here re) (String.length s + more) i s c k
  = star_loop (match_here re) (String.length s) i s c k.
Proof.
  induction more as [|more IH]; [by rewrite Nat.add_0_r|].
  rewrite Nat.add_succ_r, star_loop_enough_fuel; [done| | |lia].
  - apply match_here_keeps_groups.
  - apply match_here_looks_ahead_only.
Qed.

Lemma find_from_length re c0 i s found :
  find_from re c0 i s = Some found -> length found = length c0.
Proof.
  revert i. induction s as [|x s IH]; intros i; simpl.
  - destruct (match_here re i EmptyString c0 _) as [found'|] eqn:Hm; [|done].
    intros [= ->].
    apply match_here_keeps_groups in Hm as (j & s' & c' & _ & Hlen & [= <-]).
    by rewrite length_insert.
  - destruct (match_here re i (String x s) c0 _) as [found'|] eqn:Hm.
    + intros [= ->].
      apply match_here_keeps_groups in Hm as (j & s' & c' & _ & Hlen & [= <-]).
      by rewrite length_insert.
    + apply IH.
Qed.

(** A match is a slice with one entry for the whole match and one for
    each group. *)
Lemma FindStringSubmatch_length re s m :
  FindStringSubmatch re s = Some m -> length m = S (NumSubexp re).
Proof.
  unfold FindStringSubmatch.
  destruct (find_from re _ 0 s) as [found|] eqn:Hfind; [|done].
  intros [= <-]. rewrite length_fmap, (find_from_length _ _ _ _ _ Hfind).
  by rewrite length_replicate.
Qed.

End matcher_invariant.

(** ** Facts about the remapper *)

(** The two syntax trees are what the patterns of the source compile to. *)
Lemma gopkgInPatternOld_compiled :
  Compile gopkgInPatternOld_source = Some gopkgInPatternOld.
Proof. vm_compute. reflexivity. Qed.

Lemma gopkgInPatternNew_compiled :
  Compile gopkgInPatternNew_source = Some gopkgInPatternNew.
Proof. vm_compute. reflexivity. Qed.

(** The old pattern, with version and name the other way round. *)
Example remapURL_old_style :
  FindStringSubmatch gopkgInPatternOld "/v2/yaml" = Some ["/v2/yaml"; ""; "v2"; "yaml"; ""]
  /\ remapURL "https://gopkg.in/v2/yaml" = Some "https://github.com/go-yaml/yaml".
Proof. split; vm_compute; reflexivity. Qed.

Lemma prefix_length (p s : string) :
  String.prefix p s = true -> String.length p <= String.length s.
Proof.
  revert s. induction p as [|a p IH]; intros [|b s]; simpl; try lia; try discriminate.
  destruct (ascii_dec a b); [|discriminate].
  intros Hp. apply IH in Hp. lia.
Qed.

Lemma prefix_app (p rest : string) : String.prefix p (p +:+ rest) = true.
Proof.
  induction p as [|a p IH]; [by destruct rest|].
  change (String.prefix (String a p) (String a (p +:+ rest)) = true). simpl.
  by destruct (ascii_dec a a).
Qed.

Lemma substring_all (s : string) : String.substring 0 (String.length s) s = s.
Proof. induction s as [|x s IH]; [done|]. simpl. by rewrite IH. Qed.

Lemma remapURL_github_some m :
  3 <= length m ->
  exists rest, remapURL_github m = Some ("https://github.com/" +:+ rest).
Proof.
  intros Hlen. unfold remapURL_github.
  destruct (lookup_lt_is_Some_2 m 1) as [repoUser ->]; [lia|].
  destruct (lookup_lt_is_Some_2 m 2) as [repoName ->]; [lia|]. simpl.
  destruct (decide (repoUser <> EmptyString)).
  - exists (repoUser +:+ "/" +:+ repoName). by rewrite !string_app_assoc.
  - exists ("go-" +:+ repoName +:+ "/" +:+ repoName). by rewrite !string_app_assoc.
Qed.

(** Whatever the remapper does with a URL, the result is the URL itself or
    a URL of github.com. *)
Lemma remapURL_shape url :
  remapURL url = Some url
  \/ exists rest, remapURL url = Some ("https://github.com/" +:+ rest).
Proof.
  unfold remapURL.
  destruct (strings.HasPrefix url "https://gopkg.in/") eqn:Hgopkg.
  - apply prefix_length in Hgopkg. simpl in Hgopkg.
    unfold slice_from. rewrite decide_True by (simpl; lia). simpl.
    destruct (FindStringSubmatch gopkgInPatternNew _) as [m|] eqn:Hnew.
    + apply FindStringSubmatch_length in Hnew. right.
      apply remapURL_github_some. rewrite Hnew. simpl. lia.
    + destruct (FindStringSubmatch gopkgInPatternOld _) as [m|] eqn:Hold; [|by left].
      apply FindStringSubmatch_length in Hold. simpl in Hold. right.
      destruct (lookup_lt_is_Some_2 m 3) as [m3 ->]; [lia|].
      destruct (lookup_lt_is_Some_2 m 2) as [m2 ->]; [lia|]. simpl.
      apply remapURL_github_some. rewrite !length_insert. lia.
  - destruct (strings.HasPrefix url "https://go.googlesource.com/").
    + right. destruct (path.Split url) as [dir repoName].
      exists ("golang/" +:+ repoName). reflexivity.
    + by left.
Qed.

Lemma remapURL_github_fixed rest :
  remapURL ("https://github.com/" +:+ rest) = Some ("https://github.com/" +:+ rest).
Proof. reflexivity. Qed.

(** C3. The three examples of the specification: a package of gopkg.in
    without user goes to the go-NAME organisation of github.com, one with a
    user to that user, and a repository of go.googlesource.com to the golang
    organisation. *)
Theorem remapURL_examples :
  remapURL "https://gopkg.in/yaml.v2" = Some "https://github.com/go-yaml/yaml"
  /\ remapURL "https://gopkg.in/fsnotify/fsnotify.v1"
     = Some "https://github.com/fsnotify/fsnotify"
  /\ remapURL "https://go.googlesource.com/net" = Some "https://github.com/golang/net".
Proof. repeat split; vm_compute; reflexivity. Qed.

(** C9. [remapURL] returns a URL for every input (it cannot panic), it
    returns the input itself when the input starts with neither
    https://gopkg.in/ nor https://go.googlesource.com/, and also when the
    input starts with https://gopkg.in/ and what follows gopkg.in matches
    neither the new nor the old pattern. *)
Theorem remapURL_total_identity :
  (forall url, exists url', remapURL url = Some url')
  /\ (forall url,
        strings.HasPrefix url "https://gopkg.in/" = false ->
        strings.HasPrefix url "https://go.googlesource.com/" = false ->
        remapURL url = Some url)
  /\ (forall rest,
        FindStringSubmatch gopkgInPatternNew ("/" +:+ rest) = None ->
        FindStringSubmatch gopkgInPatternOld ("/" +:+ rest) = None ->
        remapURL ("https://gopkg.in/" +:+ rest) = Some ("https://gopkg.in/" +:+ rest)).
Proof.
  split; [|split].
  - intros url. destruct (remapURL_shape url) as [H|[rest H]]; eauto.
  - intros url Hgopkg Hsource. unfold remapURL. by rewrite Hgopkg, Hsource.
  - intros rest Hnew Hold. unfold remapURL.
    unfold strings.HasPrefix at 1. rewrite prefix_app.
    assert (slice_from ("https://gopkg.in/" +:+ rest) (String.length "https://gopkg.in")
            = Some ("/" +:+ rest)) as ->.
    { unfold slice_from. rewrite decide_True by (simpl; lia).
      f_equal. apply (substring_all ("/" +:+ rest)). }
    simpl. by rewrite Hnew, Hold.
Qed.

Lemma remapURL_total_identity_witness :
  remapURL "https://example.com/pkg" = Some "https://example.com/pkg"
  /\ remapURL "https://gopkg.in/yaml" = Some "https://gopkg.in/yaml".
Proof.
  destruct remapURL_total_identity as (_ & Hother & Hnomatch). split.
  - apply Hother; reflexivity.
  - apply (Hnomatch "yaml"); vm_compute; reflexivity.
Defined.

(** C10. [remapURL] is idempotent: for every URL it returns a URL on which
    it changes nothing, since what it rewrites starts with
    https://github.com/, which no rule matches, and what it does not rewrite
    it returns as it is. *)
Theorem remapURL_idempotent (url : string) :
  exists url', remapURL url = Some url' /\ remapURL url' = Some url'.
Proof.
  destruct (remapURL_shape url) as [Hsame|[rest Hgithub]].
  - by exists url.
  - exists ("https://github.com/" +:+ rest). split; [done|].
    apply remapURL_github_fixed.
Qed.

(** ** Facts about the prober *)

Lemma prefix_inv (p s : string) :
  String.prefix p s = true -> exists rest, s = p +:+ rest.
Proof.
  revert s. induction p as [|a p IH]; intros s Hp.
  - by exists s.
  - destruct s as [|b s]; [discriminate|]. simpl in Hp.
    destruct (ascii_dec a b) as [->|]; [|discriminate].
    destruct (IH _ Hp) as [rest ->]. by exists rest.
Qed.

Lemma Sprintf_archive_github (url revision : string) :
  fmt.Sprintf "%v/archive/%v" [url; fmt.Sprintf "%v.tar.gz" [revision]]
  = url +:+ "/archive/" +:+ revision +:+ ".tar.gz".
Proof. string_normal. reflexivity. Qed.

Lemma Sprintf_archive_googlesource (url revision : string) :
  fmt.Sprintf "%v/+archive/%v.tar.gz" [url; revision]
  = url +:+ "/+archive/" +:+ revision +:+ ".tar.gz".
Proof. string_normal. reflexivity. Qed.

(** The outcome of the github probe read off the answers of the world, in
    the order in which the probe asks for them. *)
Lemma githubTarball_outcome (w : World) (url revision : string) (st : State) :
  (githubTarball w url revision st).1 =
  let downloadURL := url +:+ "/archive/" +:+ revision +:+ ".tar.gz" in
  match world_temp_file w (temp_files st) with
  | failed msg => Fail (os_error msg)
  | ok filename =>
      match world_http_get w (requests st) downloadURL with
      | failed msg => Fail (net_error msg)
      | ok resp =>
          match Body resp, world_write w filename with
          | _ :: _, Some msg => Fail (os_error msg)
          | _, _ =>
              match BodyErr resp with
              | Some msg => Fail (net_error msg)
              | None =>
                  match world_read w filename with
                  | Some msg => Fail (os_error msg)
                  | None =>
                      match world_gzip_header w (Body resp) with
                      | Some msg => Fail (archive_error msg)
                      | None =>
                          match world_tar_entries w (Body resp) with
                          | (_ :: second :: _, _) =>
                              Ret {| url := downloadURL;
                                     stripPrefix := Name second;
                                     sha256 := fmt.Sprintf_x
                                                 (crypto_sha256.Sum256 (Body resp)) |}
                          | (_, final) => Fail (archive_error final)
                          end
                      end
                  end
              end
          end
      end
  end.
Proof.
  cbv zeta. unfold githubTarball. rewrite Sprintf_archive_github.
  unfold mbind, M_bind, defer, downloadFile, mbind, M_bind, ioutil_TempFile.
  destruct (world_temp_file w (temp_files st)) as [filename|msg]; [|done].
  unfold http_Get; simpl.
  destruct (world_http_get w (requests st) _) as [resp|msg]; [|done].
  assert (forall fs : gmap string (list byte),
            <[filename := default [] (<[filename := []]> fs !! filename) ++ Body resp]>
              (<[filename := []]> fs) !! filename = Some (Body resp)) as Hback.
  { intros fs. by rewrite !lookup_insert_eq. }
  unfold io_Copy, ioutil_ReadFile, gzip_NewReader, tar_Next, tar_NewReader; simpl.
  destruct (Body resp) as [|b0 body] eqn:Hbody;
    [|destruct (world_write w filename) as [msg|]; [done|]];
    (destruct (BodyErr resp) as [msg|]; [done|]);
    simpl; (destruct (world_read w filename) as [msg|]; [done|]);
    rewrite Hback; simpl;
    (destruct (world_gzip_header w _) as [msg|]; [done|]); simpl;
    (destruct (world_tar_entries w _) as [[|first [|second rest]] final]; done).
Qed.

Lemma defer_os_Remove {A} (name : string) (body : M A) (st : State) :
  files (defer (os_Remove name) body st).2 !! name = None.
Proof. unfold defer. destruct (body st) as [r st']. simpl. apply lookup_delete_eq. Qed.

(** The scoped temporary file: whenever the probe made one, it is gone when
    the probe returns, however it returns. *)
Lemma githubTarball_removes_temp_file (w : World) (url revision : string)
    (st : State) (filename : string) :
  world_temp_file w (temp_files st) = ok filename ->
  files (githubTarball w url revision st).2 !! filename = None.
Proof.
  intros Htemp. unfold githubTarball.
  change (files (match ioutil_TempFile w st with
                 | (Ret name, st') =>
                     defer (os_Remove name)
                       (let downloadURL :=
                          fmt.Sprintf "%v/archive/%v"
                            [url; fmt.Sprintf "%v.tar.gz" [revision]] in
                        _ ← downloadFile w name downloadURL;
                        b ← ioutil_ReadFile w name;
                        gzf ← gzip_NewReader w b;
                        '(head, tarReader) ← tar_Next (tar_NewReader w gzf);
                        '(head, tarReader) ← tar_Next tarReader;
                        mret {| url := downloadURL;
                                stripPrefix := Name head;
                                sha256 := fmt.Sprintf_x (crypto_sha256.Sum256 b) |}) st'
                 | (Fail e, st') => (Fail e, st')
                 | (Panic, st') => (Panic, st')
                 end).2 !! filename = None).
  unfold ioutil_TempFile. rewrite Htemp. apply defer_os_Remove.
Qed.

(** C2. When the github probe succeeds, the tarball it returns has the URL
    HOST/archive/REVISION.tar.gz, its strip prefix is the name of the second
    entry of the archive that was downloaded, and its checksum is the
    SHA-256 digest, in lower-case hexadecimal, of all the bytes that were
    downloaded. *)
Theorem githubTarball_success (w : World) (url revision : string) (st : State)
    (t : RemoteTarball) :
  (githubTarball w url revision st).1 = Ret t ->
  probed w url revision st t.
Proof.
  rewrite githubTarball_outcome. cbv zeta. unfold probed, downloaded.
  destruct (world_temp_file w (temp_files st)) as [filename|]; [|done].
  destruct (world_http_get w (requests st) _) as [resp|]; [|done].
  destruct (world_tar_entries w (Body resp)) as [entries final] eqn:Hentries.
  destruct (Body resp) as [|b0 body] eqn:Hbody;
    [|destruct (world_write w filename) eqn:Hwrite; [done|]];
    (destruct (BodyErr resp) eqn:Herr; [done|]);
    (destruct (world_read w filename); [done|]);
    (destruct (world_gzip_header w _); [done|]);
    destruct entries as [|first [|second rest]]; try done;
    intros [= <-]; exists filename, resp, first, second, rest, final;
    rewrite ?Hbody; rewrite ?Hentries; simpl; tauto.
Qed.

Lemma githubTarball_success_witness :
  probed sample_world "https://github.com/pkg/errors" "abc123" initial_state
    {| url := "https://github.com/pkg/errors/archive/abc123.tar.gz";
       stripPrefix := "errors-abc123/";
       sha256 := "b98e119bde6321b5b50c25af7e06daac299480d5028b51feb6cce09546619daf" |}.
Proof. apply githubTarball_success. vm_compute. reflexivity. Defined.

(** Where no temporary file can be made, the probe fails before any
    request, with the error of the operating system. *)
Lemma githubTarball_temp_file_failure :
  githubTarball readonly_tmp_world "https://github.com/pkg/errors" "abc123" initial_state
  = (Fail (os_error "open /tmp/000: permission denied"), initial_state)
  /\ ~ only_fetch_and_archive_errors.
Proof.
  split; [reflexivity|].
  intros Hclaim.
  destruct (Hclaim readonly_tmp_world "https://github.com/pkg/errors" "abc123"
              initial_state (os_error "open /tmp/000: permission denied")
              eq_refl) as [Hkind|Hkind];
    discriminate Hkind.
Qed.

(** After a copy without error, the outcome [He] no longer depends on how
    the copy went well, by [Hcopy]: nothing to write, or a write without
    error. *)
Ltac copied Hcopy He :=
  let Hb := fresh "Hb" in
  let Hw := fresh "Hw" in
  destruct Hcopy as [Hb|Hw];
  [rewrite Hb in He|rewrite Hw in He; destruct (Body _)];
  simpl in He; congruence.

(** C8, amended. The github probe never panics, and it fails exactly when
    one of its steps fails, with the error of that step: making the
    temporary file, the request, writing or reading the body during the
    copy, reading the file back, the gzip header, the first or the second
    entry of the archive (an archive of fewer than two entries fails there).
    The error is a fetch error exactly for the request and the reading of
    the body, an archive format error exactly for the gzip header and the two
    entries, and an error of the file system for the other three steps. *)
Theorem githubTarball_failure_modes (w : World) (url revision : string) (st : State) :
  (githubTarball w url revision st).1 <> Panic
  /\ (forall e,
        (githubTarball w url revision st).1 = Fail e
        <-> exists step, fails_at w url revision st step e)
  /\ (forall step e,
        fails_at w url revision st step e ->
        ErrorTaxonomy.classify e = kind_of_step step).
Proof.
  split; [|split].
  - rewrite githubTarball_outcome. cbv zeta. repeat case_match; done.
  - intros e. rewrite githubTarball_outcome. cbv zeta. split.
    + destruct (world_temp_file w (temp_files st)) as [filename|msg] eqn:Htemp.
      2:{ intros [= <-]. exists CreateTemp. by constructor. }
      destruct (world_http_get w (requests st) _) as [resp|msg] eqn:Hget.
      2:{ intros [= <-]. exists Request. by econstructor. }
      assert ((exists msg, Body resp <> [] /\ world_write w filename = Some msg)
              \/ Body resp = [] \/ world_write w filename = None) as [(msg & Hbody & Hw)|Hcopy].
      { destruct (Body resp); [by right; left|].
        destruct (world_write w filename); [left|right]; eauto. }
      { intros He. exists WriteBody.
        assert (e = os_error msg) as ->.
        { destruct (Body resp); [done|]. rewrite Hw in He. congruence. }
        by econstructor. }
      destruct (BodyErr resp) as [msg|] eqn:Herr.
      { intros He. exists ReadBody.
        assert (e = net_error msg) as ->.
        { copied Hcopy He. }
        by econstructor. }
      assert (downloaded w url revision st filename resp) as Hdown by done.
      destruct (world_read w filename) as [msg|] eqn:Hread.
      { intros He. exists ReadBack.
        assert (e = os_error msg) as ->.
        { copied Hcopy He. }
        by econstructor. }
      destruct (world_gzip_header w (Body resp)) as [msg|] eqn:Hgzip.
      { intros He. exists GzipHeader.
        assert (e = archive_error msg) as ->.
        { copied Hcopy He. }
        by econstructor. }
      destruct (world_tar_entries w (Body resp)) as [[|first [|second rest]] final]
        eqn:Hentries; intros He.
      * exists FirstEntry.
        assert (e = archive_error final) as ->.
        { copied Hcopy He. }
        by econstructor.
      * exists SecondEntry.
        assert (e = archive_error final) as ->.
        { copied Hcopy He. }
        by econstructor.
      * copied Hcopy He.
    + intros [step Hfails].
      destruct Hfails as
        [msg Htemp|filename msg Htemp Hget|filename resp msg Htemp Hget Hbody Hw
        |filename resp msg Htemp Hget Hcopy Herr
        |filename resp msg (Htemp & Hget & Hcopy & Herr) Hread
        |filename resp msg (Htemp & Hget & Hcopy & Herr) Hread Hgzip
        |filename resp final (Htemp & Hget & Hcopy & Herr) Hread Hgzip Hentries
        |filename resp first final (Htemp & Hget & Hcopy & Herr) Hread Hgzip Hentries];
        rewrite Htemp; try rewrite Hget; try done.
      * destruct (Body resp); [done|]. by rewrite Hw.
      * rewrite Herr. destruct Hcopy as [->| ->]; [done|]. by destruct (Body resp).
      * rewrite Herr, Hread. destruct Hcopy as [->| ->]; [done|]. by destruct (Body resp).
      * rewrite Herr, Hread, Hgzip.
        destruct Hcopy as [->| ->]; [done|]. by destruct (Body resp).
      * rewrite Herr, Hread, Hgzip, Hentries.
        destruct Hcopy as [->| ->]; [done|]. by destruct (Body resp).
      * rewrite Herr, Hread, Hgzip, Hentries.
        destruct Hcopy as [->| ->]; [done|]. by destruct (Body resp).
  - intros step e Hfails. by destruct Hfails.
Qed.

(** A response that is not a success is not an error of [http.Get]: the
    probe goes on and fails on what it takes for the archive. *)
Example githubTarball_not_found :
  githubTarball sample_world "https://github.com/pkg/missing" "abc123" initial_state
  = (Fail (archive_error "EOF"),
     {| files := ∅;
        requests := ["https://github.com/pkg/missing/archive/abc123.tar.gz"];
        temp_files := 1 |}).
Proof. vm_compute. reflexivity. Qed.

(** C6. For a URL of go.googlesource.com the probe succeeds whatever the
    world is and leaves the state as it was (no request, no file): the
    tarball has the URL HOST/+archive/REVISION.tar.gz, an empty strip
    prefix and an empty checksum. *)
Theorem tryTarball_googlesource (w : World) (url revision : string) (st : State) :
  strings.HasPrefix url "https://go.googlesource.com/" = true ->
  tryTarball w url revision st
  = (Ret {| url := url +:+ "/+archive/" +:+ revision +:+ ".tar.gz";
            stripPrefix := EmptyString;
            sha256 := EmptyString |}, st).
Proof.
  intros Hprefix. apply prefix_inv in Hprefix as [rest ->].
  unfold tryTarball.
  change (strings.HasPrefix ("https://go.googlesource.com/" +:+ rest)
            "https://github.com/") with false.
  unfold strings.HasPrefix. rewrite prefix_app.
  unfold googlesourceTarball. by rewrite Sprintf_archive_googlesource.
Qed.

Lemma tryTarball_googlesource_witness :
  tryTarball readonly_tmp_world "https://go.googlesource.com/net" "abc123" initial_state
  = (Ret {| url := "https://go.googlesource.com/net/+archive/abc123.tar.gz";
            stripPrefix := EmptyString;
            sha256 := EmptyString |}, initial_state).
Proof.
  apply (tryTarball_googlesource readonly_tmp_world "https://go.googlesource.com/net").
  reflexivity.
Defined.

(** C7. For a URL that starts with neither https://github.com/ nor
    https://go.googlesource.com/ the probe fails at once with the error
    Unknown server, an unsupported host error, and leaves the state as it
    was: no request is sent. *)
Theorem tryTarball_unknown_server (w : World) (url revision : string) (st : State) :
  strings.HasPrefix url "https://github.com/" = false ->
  strings.HasPrefix url "https://go.googlesource.com/" = false ->
  tryTarball w url revision st = (Fail (fmt_error "Unknown server"), st)
  /\ ErrorTaxonomy.classify (fmt_error "Unknown server")
     = ErrorTaxonomy.UnsupportedHostError.
Proof.
  intros Hgithub Hsource. unfold tryTarball. by rewrite Hgithub, Hsource.
Qed.

Lemma tryTarball_unknown_server_witness :
  tryTarball sample_world "https://example.com/pkg" "abc123" initial_state
  = (Fail (fmt_error "Unknown server"), initial_state)
  /\ ErrorTaxonomy.classify (fmt_error "Unknown server")
     = ErrorTaxonomy.UnsupportedHostError.
Proof. apply tryTarball_unknown_server; reflexivity. Defined.

(** ** Facts about the resolver *)

Lemma tryTarball_no_panic (w : World) (url revision : string) (st : State) :
  (tryTarball w url revision st).1 <> Panic.
Proof.
  unfold tryTarball.
  destruct (strings.HasPrefix url "https://github.com/").
  - rewrite githubTarball_outcome. cbv zeta. repeat case_match; done.
  - by destruct (strings.HasPrefix url "https://go.googlesource.com/").
Qed.

(** C1. [remoteRepository] returns a repository and a nil error for every
    URL and revision, in every world and state: the tarball of the probe of
    the remapped URL if that probe succeeds; otherwise the tarball of the
    probe of the URL as given, made after the first, if that one succeeds;
    otherwise a git repository with the revision as given. *)
Theorem remoteRepository_resolves (w : World) (url importName revision : string)
    (st : State) :
  exists remappedURL,
    remapURL url = Some remappedURL
    /\ (exists repo st', remoteRepository w url importName revision st = (Ret repo, st'))
    /\ (forall tarball st1,
          tryTarball w remappedURL revision st = (Ret tarball, st1) ->
          remoteRepository w url importName revision st = (Ret (Tarball tarball), st1))
    /\ (forall err st1 tarball st2,
          tryTarball w remappedURL revision st = (Fail err, st1) ->
          tryTarball w url revision st1 = (Ret tarball, st2) ->
          remoteRepository w url importName revision st = (Ret (Tarball tarball), st2))
    /\ (forall err1 st1 err2 st2,
          tryTarball w remappedURL revision st = (Fail err1, st1) ->
          tryTarball w url revision st1 = (Fail err2, st2) ->
          remoteRepository w url importName revision st
          = (Ret (GitRepo {| revision := revision |}), st2)).
Proof.
  assert (exists remappedURL, remapURL url = Some remappedURL) as [remappedURL Hremap]
    by (destruct (remapURL_shape url) as [?|[? ?]]; eauto).
  exists remappedURL. split; [done|].
  unfold remoteRepository, mbind, M_bind, or_panic, attempt. rewrite Hremap.
  pose proof (tryTarball_no_panic w remappedURL revision st) as Hfirst.
  destruct (tryTarball w remappedURL revision st) as [[tarball|err|] st1]; [| |done].
  { split; [by eexists _, _|]. split; [by intros ? ? [= <- <-]|]. by split. }
  pose proof (tryTarball_no_panic w url revision st1) as Hsecond.
  destruct (tryTarball w url revision st1) as [[tarball|err2|] st2] eqn:Htry; [| |done].
  - split; [by eexists _, _|]. split; [done|].
    split; [|by intros ? ? ? ? [= <- <-]; rewrite Htry].
    intros ? ? ? ? [= <- <-]. rewrite Htry. by intros [= <- <-].
  - split; [by eexists _, _|]. split; [done|].
    split; [by intros ? ? ? ? [= <- <-]; rewrite Htry|].
    intros ? ? ? ? [= <- <-]. rewrite Htry. by intros [= <- <-].
Qed.

(** The three ways in which the resolver ends, in the sample world: the
    archive of github.com; no archive behind the remapped URL and no probe
    for gopkg.in, hence git; no probe at all for an unknown host, hence git
    without a single request. *)
Example remoteRepository_tarball :
  (remoteRepository sample_world "https://github.com/pkg/errors"
     "github.com/pkg/errors" "abc123" initial_state).1
  = Ret (Tarball
      {| url := "https://github.com/pkg/errors/archive/abc123.tar.gz";
         stripPrefix := "errors-abc123/";
         sha256 := "b98e119bde6321b5b50c25af7e06daac299480d5028b51feb6cce09546619daf" |}).
Proof. vm_compute. reflexivity. Qed.

Example remoteRepository_gopkg :
  remoteRepository sample_world "https://gopkg.in/yaml.v2" "gopkg.in/yaml.v2" "abc123"
    initial_state
  = (Ret (GitRepo {| revision := "abc123" |}),
     {| files := ∅;
        requests := ["https://github.com/go-yaml/yaml/archive/abc123.tar.gz"];
        temp_files := 1 |}).
Proof. vm_compute. reflexivity. Qed.

Example remoteRepository_unknown_host :
  remoteRepository sample_world "https://example.com/pkg" "example.com/pkg" "abc123"
    initial_state
  = (Ret (GitRepo {| revision := "abc123" |}), initial_state).
Proof. vm_compute. reflexivity. Qed.

(** ** More about the naming *)

Lemma bazelName_value importpath :
  bazelName importpath = Some (NamingSpec.Name importpath).
Proof.
  unfold bazelName, NamingSpec.Name.
  pose proof (Split_nonempty importpath "/") as Hne.
  destruct (strings.Split importpath "/") as [|parts0 rest]; [done|].
  simpl. rewrite bazelName_loop_rev by done. simpl.
  rewrite firstn_all, drop_0. by rewrite Replace_dash_dot.
Qed.

Lemma string_app_length (a b : string) :
  String.length (a +:+ b) = String.length a + String.length b.
Proof.
  induction a as [|x a IH]; [done|].
  change (S (String.length (a +:+ b)) = S (String.length a) + String.length b).
  by rewrite IH.
Qed.

Lemma bytes_in_app (a b : string) : bytes_in (a +:+ b) = bytes_in a ++ bytes_in b.
Proof.
  induction a as [|x a IH]; [done|].
  change (x :: bytes_in (a +:+ b) = x :: bytes_in a ++ bytes_in b). by rewrite IH.
Qed.

Lemma map_bytes_length f s :
  String.length (NamingSpec.map_bytes f s) = String.length s.
Proof. induction s as [|c s IH]; simpl; [done|]. by rewrite IH. Qed.

Lemma map_bytes_app f (a b : string) :
  NamingSpec.map_bytes f (a +:+ b)
  = NamingSpec.map_bytes f a +:+ NamingSpec.map_bytes f b.
Proof.
  induction a as [|x a IH]; [done|].
  change (String (f x) (NamingSpec.map_bytes f (a +:+ b))
          = String (f x) (NamingSpec.map_bytes f a +:+ NamingSpec.map_bytes f b)).
  by rewrite IH.
Qed.

Lemma bytes_in_map_bytes f s :
  bytes_in (NamingSpec.map_bytes f s) = f <$> bytes_in s.
Proof.
  induction s as [|c s IH]; [done|].
  change (f c :: bytes_in (NamingSpec.map_bytes f s) = f c :: (f <$> bytes_in s)).
  by rewrite IH.
Qed.

Lemma Join_cons e l sep :
  l <> [] -> strings.Join (e :: l) sep = e +:+ sep +:+ strings.Join l sep.
Proof. by destruct l. Qed.

Lemma Join_app l1 l2 sep :
  l1 <> [] -> l2 <> [] ->
  strings.Join (l1 ++ l2) sep = strings.Join l1 sep +:+ sep +:+ strings.Join l2 sep.
Proof.
  intros H1 H2. induction l1 as [|e l1 IH]; [done|].
  destruct l1 as [|e' l1].
  - simpl app. by rewrite Join_cons.
  - change ((e :: e' :: l1) ++ l2) with (e :: ((e' :: l1) ++ l2)).
    rewrite Join_cons by done. rewrite IH by done.
    rewrite (Join_cons e (e' :: l1)) by done.
    by rewrite !string_app_assoc.
Qed.

(** Every field with the separator after it: as many bytes as the text
    with one separator more. *)
Lemma Split_weight s sep :
  sum_list_with (fun e => S (String.length e)) (strings.Split s sep)
  = S (String.length s).
Proof.
  induction s as [|c s IH]; simpl; [done|].
  destruct (Ascii.eqb c sep); simpl; [by rewrite IH|].
  pose proof (Split_nonempty s sep).
  destruct (strings.Split s sep) as [|field fields]; [done|].
  simpl in *. lia.
Qed.

Lemma Join_weight l (sep : ascii) :
  l <> [] ->
  S (String.length (strings.Join l (String sep EmptyString)))
  = sum_list_with (fun e => S (String.length e)) l.
Proof.
  induction l as [|e l IH]; [done|]. intros _.
  destruct l as [|e' l]; [simpl; lia|].
  rewrite Join_cons by done. rewrite !string_app_length.
  change (sum_list_with _ (e :: e' :: l))
    with (S (String.length e) + sum_list_with (fun e => S (String.length e)) (e' :: l)).
  rewrite <- IH by done. simpl. lia.
Qed.

Lemma sum_list_with_rev {A} (f : A -> nat) (l : list A) :
  sum_list_with f (rev l) = sum_list_with f l.
Proof.
  induction l as [|x l IH]; [done|]. simpl.
  rewrite sum_list_with_app, IH. simpl. lia.
Qed.

Lemma rev_nonempty {A} (l : list A) : l <> [] -> rev l <> [].
Proof.
  destruct l as [|x l]; [done|]. intros _ Hrev.
  apply (f_equal (@length A)) in Hrev. rewrite length_rev in Hrev. done.
Qed.

(** X1. The name has as many bytes as the import path: every separator is
    replaced by one underscore, nothing is added and nothing is dropped. *)
Theorem bazelName_length (importpath : string) :
  exists name,
    bazelName importpath = Some name
    /\ String.length name = String.length importpath.
Proof.
  exists (NamingSpec.Name importpath). split; [apply bazelName_value|].
  unfold NamingSpec.Name. rewrite map_bytes_length.
  pose proof (Split_nonempty importpath "/") as Hne.
  pose proof (Split_weight importpath "/") as Hsum.
  destruct (strings.Split importpath "/") as [|host rest]; [done|].
  simpl hd. simpl tl.
  assert (rev (strings.Split host ".") ++ rest <> []) as Hall.
  { pose proof (rev_nonempty _ (Split_nonempty host ".")).
    by destruct (rev (strings.Split host ".")). }
  pose proof (Join_weight _ "_"%char Hall) as Hjoin.
  rewrite sum_list_with_app, sum_list_with_rev, Split_weight in Hjoin.
  simpl in Hsum. lia.
Qed.

Lemma Split_bytes (P : ascii -> Prop) s sep :
  Forall P (bytes_in s) ->
  Forall (fun field => Forall P (bytes_in field)) (strings.Split s sep).
Proof.
  induction s as [|c s IH]; simpl.
  - intros _. by repeat constructor.
  - intros Hs. apply Forall_cons in Hs as [Hc Hs]. specialize (IH Hs).
    destruct (Ascii.eqb c sep).
    + constructor; [constructor|done].
    + destruct (strings.Split s sep) as [|field fields].
      * repeat constructor. done.
      * apply Forall_cons in IH as [Hfield Hfields].
        constructor; [by constructor|done].
Qed.

Lemma Split_no_separator s sep :
  Forall (fun field => Forall (fun c => c <> sep) (bytes_in field)) (strings.Split s sep).
Proof.
  induction s as [|c s IH]; simpl.
  - by repeat constructor.
  - destruct (Ascii.eqb c sep) eqn:Hc.
    + constructor; [constructor|done].
    + apply Ascii.eqb_neq in Hc.
      destruct (strings.Split s sep) as [|field fields].
      * repeat constructor. done.
      * apply Forall_cons in IH as [Hfield Hfields].
        constructor; [by constructor|done].
Qed.

Lemma Join_bytes (P : ascii -> Prop) l sep :
  Forall P (bytes_in sep) ->
  Forall (fun e => Forall P (bytes_in e)) l ->
  Forall P (bytes_in (strings.Join l sep)).
Proof.
  intros Hsep. induction l as [|e l IH]; [constructor|].
  intros Hl. apply Forall_cons in Hl as [He Hl].
  destruct l as [|e' l]; [done|].
  rewrite Join_cons by done. rewrite !bytes_in_app.
  repeat (apply Forall_app; split); auto.
Qed.

(** X2. The name contains no slash, no dash and no dot. *)
Theorem bazelName_no_separator (importpath : string) :
  exists name,
    bazelName importpath = Some name
    /\ Forall (fun c => c <> "/" /\ c <> "-" /\ c <> ".")%char (bytes_in name).
Proof.
  exists (NamingSpec.Name importpath). split; [apply bazelName_value|].
  unfold NamingSpec.Name. rewrite bytes_in_map_bytes.
  apply Forall_fmap.
  assert (Forall (fun c => c <> "/"%char)
            (bytes_in (strings.Join
               (rev (strings.Split (hd EmptyString (strings.Split importpath "/")) ".")
                ++ tl (strings.Split importpath "/")) "_"))) as Hjoin.
  { apply Join_bytes; [by repeat constructor|].
    pose proof (Split_no_separator importpath "/") as Hsegments.
    destruct (strings.Split importpath "/") as [|host rest].
    - simpl. by repeat constructor.
    - apply Forall_cons in Hsegments as [Hhost Hrest]. simpl hd. simpl tl.
      apply Forall_app; split; [|done].
      apply Forall_forall. intros label Hlabel.
      apply list_elem_of_In, in_rev, list_elem_of_In in Hlabel.
      revert label Hlabel. apply Forall_forall. by apply Split_bytes. }
  eapply Forall_impl; [exact Hjoin|].
  intros c Hc. simpl. unfold NamingSpec.replace_dash_dot.
  destruct (decide (c = "-"%char \/ c = "."%char)) as [_|Hno]; [done|].
  split; [done|]. split; intros ->; tauto.
Qed.

Lemma Split_app_separator host rest sep :
  Forall (fun c => c <> sep) (bytes_in host) ->
  strings.Split (host +:+ String sep rest) sep = host :: strings.Split rest sep.
Proof.
  induction host as [|c host IH]; intros Hhost.
  - change (strings.Split (String sep rest) sep = [EmptyString] ++ strings.Split rest sep).
    simpl. by rewrite Ascii.eqb_refl.
  - apply Forall_cons in Hhost as [Hc Hhost].
    change (strings.Split (String c (host +:+ String sep rest)) sep
            = String c host :: strings.Split rest sep).
    simpl. apply Ascii.eqb_neq in Hc. rewrite Hc. by rewrite IH.
Qed.

Lemma squash_Join_Split s :
  NamingSpec.map_bytes NamingSpec.replace_dash_dot
    (strings.Join (strings.Split s "/") "_")
  = squash s.
Proof.
  induction s as [|c s IH]; [done|]. simpl strings.Split.
  pose proof (Split_nonempty s "/") as Hne.
  destruct (Ascii.eqb c "/") eqn:Hc.
  - apply Ascii.eqb_eq in Hc as ->. rewrite Join_cons by done.
    change (String "_" (NamingSpec.map_bytes NamingSpec.replace_dash_dot
                          (strings.Join (strings.Split s "/") "_"))
            = String "_" (squash s)).
    by rewrite IH.
  - destruct (strings.Split s "/") as [|field fields]; [done|].
    assert (strings.Join (String c field :: fields) "_"
            = String c (strings.Join (field :: fields) "_")) as ->.
    { by destruct fields. }
    change (String (NamingSpec.replace_dash_dot c)
              (NamingSpec.map_bytes NamingSpec.replace_dash_dot
                 (strings.Join (field :: fields) "_"))
            = String (squash_byte c) (squash s)).
    rewrite IH. f_equal.
    unfold squash_byte, NamingSpec.replace_dash_dot. rewrite Hc. simpl.
    destruct (Ascii.eqb c "-") eqn:Hdash.
    { apply Ascii.eqb_eq in Hdash. destruct (decide _) as [_|Hno]; tauto. }
    destruct (Ascii.eqb c ".") eqn:Hdot.
    { apply Ascii.eqb_eq in Hdot. destruct (decide _) as [_|Hno]; tauto. }
    apply Ascii.eqb_neq in Hdash, Hdot. destruct (decide _) as [[?|?]|_]; done.
Qed.

Lemma bazelName_host_rest host rest :
  Forall (fun c => c <> "/"%char) (bytes_in host) ->
  bazelName (host +:+ "/" +:+ rest) = Some (host_name host +:+ "_" +:+ squash rest).
Proof.
  intros Hhost. rewrite bazelName_value. f_equal. unfold NamingSpec.Name.
  change (host +:+ "/" +:+ rest) with (host +:+ String "/" rest).
  rewrite Split_app_separator by done. simpl hd. simpl tl.
  rewrite Join_app by (apply rev_nonempty, Split_nonempty || apply Split_nonempty).
  rewrite !map_bytes_app, squash_Join_Split.
  unfold host_name. by rewrite Replace_dash_dot.
Qed.

(** X3. After a host without slash the name is the name of the host, an
    underscore, and the rest of the path with every slash, dash and dot
    turned into an underscore; so two paths on one host whose rests differ
    in these three bytes only get the same name. *)
Theorem bazelName_after_host (host rest : string) :
  Forall (fun c => c <> "/"%char) (bytes_in host) ->
  bazelName (host +:+ "/" +:+ rest) = Some (host_name host +:+ "_" +:+ squash rest)
  /\ (forall rest',
        squash rest = squash rest' ->
        bazelName (host +:+ "/" +:+ rest) = bazelName (host +:+ "/" +:+ rest')).
Proof.
  intros Hhost. split; [by apply bazelName_host_rest|].
  intros rest' Hsame. rewrite !bazelName_host_rest by done. by rewrite Hsame.
Qed.

Lemma bazelName_after_host_witness :
  bazelName "github.com/a-b/c.d" = Some "com_github_a_b_c_d"
  /\ bazelName "github.com/a-b/c.d" = bazelName "github.com/a/b-c/d".
Proof.
  destruct (bazelName_after_host "github.com" "a-b/c.d") as [Hname Hsame].
  - repeat constructor; discriminate.
  - split; [exact Hname|]. apply (Hsame "a/b-c/d"). reflexivity.
Defined.

(** ** More about the rendering *)

(** X4. For a tarball without checksum the method writes what the unused
    template [repoTemplateNoChecksum] gives for the name, the import path,
    the URL and the strip prefix. *)
Theorem GetRepoString_template (t : RemoteTarball) (name importPath : string) :
  sha256 t = EmptyString ->
  GetRepoString t name importPath
  = fmt.Sprintf repoTemplateNoChecksum [name; importPath; url t; stripPrefix t].
Proof.
  destruct t as [u p h]. simpl. intros ->.
  unfold GetRepoString; simpl. unfold repoTemplateNoChecksum.
  destruct (decide (EmptyString <> EmptyString)) as [Hne|_]; [done|].
  string_normal. reflexivity.
Qed.

Lemma GetRepoString_template_witness :
  GetRepoString
    {| url := "https://go.googlesource.com/net/+archive/abc123.tar.gz";
       stripPrefix := EmptyString; sha256 := EmptyString |}
    "org_golang_x_net" "golang.org/x/net"
  = fmt.Sprintf repoTemplateNoChecksum
      ["org_golang_x_net"; "golang.org/x/net";
       "https://go.googlesource.com/net/+archive/abc123.tar.gz"; EmptyString].
Proof. apply GetRepoString_template. reflexivity. Defined.

(** ** More about the prober *)


Lemma githubTarball_final_state (w : World) (url revision : string) (st : State) :
  (githubTarball w url revision st).2
  = match world_temp_file w (temp_files st) with
    | failed _ => st
    | ok filename =>
        {| files := delete filename (files st);
           requests := (url +:+ "/archive/" +:+ revision +:+ ".tar.gz") :: requests st;
           temp_files := S (temp_files st) |}
    end.
Proof.
  unfold githubTarball. rewrite Sprintf_archive_github.
  unfold mbind, M_bind, defer, downloadFile, mbind, M_bind, ioutil_TempFile.
  destruct (world_temp_file w (temp_files st)) as [filename|msg]; [|done].
  unfold http_Get; simpl.
  destruct (world_http_get w (requests st) _) as [resp|msg]; simpl.
  2:{ by rewrite delete_insert_eq. }
  unfold io_Copy, ioutil_ReadFile, gzip_NewReader, tar_Next, tar_NewReader; simpl.
  destruct (Body resp) as [|b0 body];
    [|destruct (world_write w filename) as [msg|]];
    try (destruct (BodyErr resp) as [msg|]); simpl;
    try (destruct (world_read w filename) as [msg|]); simpl;
    rewrite ?lookup_insert_eq; simpl;
    try (destruct (world_gzip_header w _) as [msg|]); simpl;
    try (destruct (world_tar_entries w _) as [[|first [|second rest]] final]); simpl;
    by rewrite ?delete_insert_eq.
Qed.


(** ** More about the resolver *)




Lemma remoteRepository_unfold (w : World) (url importName revision remappedURL : string)
    (st : State) :
  remapURL url = Some remappedURL ->
  remoteRepository w url importName revision st
  = match tryTarball w remappedURL revision st with
    | (Ret tarball, st1) => (Ret (Tarball tarball), st1)
    | (Fail _, st1) =>
        match tryTarball w url revision st1 with
        | (Ret tarball, st2) => (Ret (Tarball tarball), st2)
        | (Fail _, st2) => (Ret (GitRepo {| revision := revision |}), st2)
        | (Panic, st2) => (Panic, st2)
        end
    | (Panic, st1) => (Panic, st1)
    end.
Proof.
  intros Hremap. unfold remoteRepository, mbind, M_bind, or_panic, attempt.
  rewrite Hremap.
  destruct (tryTarball w remappedURL revision st) as [[tarball|err|] st1]; [done| |done].
  by destruct (tryTarball w url revision st1) as [[tarball|err2|] st2].
Qed.

Lemma githubTarball_Ret_probed (w : World) (url revision : string) (st : State)
    (t : RemoteTarball) :
  (githubTarball w url revision st).1 = Ret t -> probed w url revision st t.
Proof.
  rewrite githubTarball_outcome. cbv zeta. unfold probed, downloaded.
  destruct (world_temp_file w (temp_files st)) as [filename|]; [|done].
  destruct (world_http_get w (requests st) _) as [resp|]; [|done].
  destruct (world_tar_entries w (Body resp)) as [[|first [|second rest]] final]
    eqn:Hentries;
    (destruct (Body resp) as [|b0 body] eqn:Hbody;
     [|destruct (world_write w filename) eqn:Hwrite; [done|]]);
    (destruct (BodyErr resp) eqn:Herr; [done|]);
    (destruct (world_read w filename); [done|]);
    (destruct (world_gzip_header w _); [done|]);
    try done;
    intros [= <-]; exists filename, resp, first, second, rest, final;
    rewrite ?Hbody; rewrite ?Hentries; simpl; tauto.
Qed.

Lemma tryTarball_googlesource_value (w : World) (url revision : string) (st : State) :
  strings.HasPrefix url "https://go.googlesource.com/" = true ->
  tryTarball w url revision st
  = (Ret {| url := url +:+ "/+archive/" +:+ revision +:+ ".tar.gz";
            stripPrefix := EmptyString;
            sha256 := EmptyString |}, st).
Proof.
  intros Hprefix. unfold tryTarball. rewrite Hprefix.
  apply prefix_inv in Hprefix as [rest ->].
  change (strings.HasPrefix ("https://go.googlesource.com/" +:+ rest)
            "https://github.com/") with false.
  cbv iota. unfold googlesourceTarball. by rewrite Sprintf_archive_googlesource.
Qed.

Lemma remapURL_some (url : string) : exists remappedURL, remapURL url = Some remappedURL.
Proof. destruct (remapURL_shape url) as [?|[? ?]]; eauto. Qed.




(** X9. A URL of go.googlesource.com always resolves to a tarball, never to
    git: the one probed on the mirror under github.com/golang, or else the
    one of go.googlesource.com itself, which has no checksum. *)
Theorem remoteRepository_googlesource (w : World) (url importName revision : string)
    (st : State) :
  strings.HasPrefix url "https://go.googlesource.com/" = true ->
  exists tarball st',
    remoteRepository w url importName revision st = (Ret (Tarball tarball), st')
    /\ (probed w ("https://github.com/golang/" +:+ (path.Split url).2) revision st tarball
        \/ tarball = {| url := url +:+ "/+archive/" +:+ revision +:+ ".tar.gz";
                        stripPrefix := EmptyString;
                        sha256 := EmptyString |}).
Proof.
  intros Hsource.
  assert (remapURL url = Some ("https://github.com/golang/" +:+ (path.Split url).2))
    as Hremap.
  { unfold remapURL. rewrite Hsource.
    apply prefix_inv in Hsource as [rest ->].
    change (strings.HasPrefix ("https://go.googlesource.com/" +:+ rest)
              "https://gopkg.in/") with false.
    cbv iota. by destruct (path.Split _). }
  rewrite (remoteRepository_unfold _ _ _ _ _ _ Hremap).
  unfold tryTarball at 1.
  change (strings.HasPrefix ("https://github.com/golang/" +:+ (path.Split url).2)
            "https://github.com/") with true.
  cbv iota.
  pose proof (githubTarball_Ret_probed w
                ("https://github.com/golang/" +:+ (path.Split url).2) revision st) as Hok.
  pose proof (tryTarball_no_panic w
                ("https://github.com/golang/" +:+ (path.Split url).2) revision st) as Hnp.
  unfold tryTarball in Hnp.
  change (strings.HasPrefix ("https://github.com/golang/" +:+ (path.Split url).2)
            "https://github.com/") with true in Hnp.
  cbv iota in Hnp.
  destruct (githubTarball w _ revision st) as [[tarball|err|] st1]; [| |done].
  - exists tarball, st1. split; [done|]. left. by apply Hok.
  - rewrite (tryTarball_googlesource_value w url revision st1 Hsource).
    eexists _, st1. split; [done|]. by right.
Qed.

Lemma remoteRepository_googlesource_witness :
  exists tarball st',
    remoteRepository sample_world "https://go.googlesource.com/net" "golang.org/x/net"
      "abc123" initial_state
    = (Ret (Tarball tarball), st')
    /\ (probed sample_world
          ("https://github.com/golang/" +:+ (path.Split "https://go.googlesource.com/net").2)
          "abc123" initial_state tarball
        \/ tarball
           = {| url := "https://go.googlesource.com/net" +:+ "/+archive/" +:+ "abc123"
                       +:+ ".tar.gz";
                stripPrefix := EmptyString;
                sha256 := EmptyString |}).
Proof. apply remoteRepository_googlesource. reflexivity. Defined.

(** X10. A URL of none of the three known hosts resolves to git with the
    revision as given, and the state is as before: nothing is requested,
    no file is made. *)
Theorem remoteRepository_unknown_host_git (w : World) (url importName revision : string)
    (st : State) :
  strings.HasPrefix url "https://gopkg.in/" = false ->
  strings.HasPrefix url "https://go.googlesource.com/" = false ->
  strings.HasPrefix url "https://github.com/" = false ->
  remoteRepository w url importName revision st
  = (Ret (GitRepo {| revision := revision |}), st).
Proof.
  intros Hgopkg Hsource Hgithub.
  assert (remapURL url = Some url) as Hremap.
  { unfold remapURL. by rewrite Hgopkg, Hsource. }
  rewrite (remoteRepository_unfold _ _ _ _ _ _ Hremap).
  unfold tryTarball. by rewrite Hgithub, Hsource.
Qed.

Lemma remoteRepository_unknown_host_git_witness :
  remoteRepository sample_world "https://bitbucket.org/team/repo" "bitbucket.org/team/repo"
    "abc123" initial_state
  = (Ret (GitRepo {| revision := "abc123" |}), initial_state).
Proof. apply remoteRepository_unknown_host_git; reflexivity. Defined.

(** X11. For a URL of gopkg.in the second probe, of the URL as given, never
    finds a tarball and never sends a request: the result is the tarball
    probed at the remapped URL, or git, in the state after that one probe. *)
Theorem remoteRepository_gopkg_in (w : World) (url importName revision : string)
    (st : State) :
  strings.HasPrefix url "https://gopkg.in/" = true ->
  exists remappedURL,
    remapURL url = Some remappedURL
    /\ remoteRepository w url importName revision st
       = match tryTarball w remappedURL revision st with
         | (Ret tarball, st1) => (Ret (Tarball tarball), st1)
         | (_, st1) => (Ret (GitRepo {| revision := revision |}), st1)
         end.
Proof.
  intros Hgopkg. destruct (remapURL_some url) as [remappedURL Hremap].
  exists remappedURL. split; [done|].
  rewrite (remoteRepository_unfold _ _ _ _ _ _ Hremap).
  pose proof (tryTarball_no_panic w remappedURL revision st) as Hnp.
  destruct (tryTarball w remappedURL revision st) as [[tarball|err|] st1]; [done| |done].
  apply prefix_inv in Hgopkg as [rest ->]. reflexivity.
Qed.

Lemma remoteRepository_gopkg_in_witness :
  exists remappedURL,
    remapURL "https://gopkg.in/yaml.v2" = Some remappedURL
    /\ remoteRepository sample_world "https://gopkg.in/yaml.v2" "gopkg.in/yaml.v2" "abc123"
         initial_state
       = match tryTarball sample_world remappedURL "abc123" initial_state with
         | (Ret tarball, st1) => (Ret (Tarball tarball), st1)
         | (_, st1) => (Ret (GitRepo {| revision := "abc123" |}), st1)
         end.
Proof. apply remoteRepository_gopkg_in. reflexivity. Defined.

(** The status of a response is never read. *)
Lemma githubTarball_with_status status_of (w : World) (url revision : string)
    (st : State) :
  githubTarball (with_status status_of w) url revision st = githubTarball w url revision st.
Proof.
  apply injective_projections.
  - rewrite !githubTarball_outcome. cbv zeta. simpl.
    destruct (world_temp_file w (temp_files st)) as [filename|msg]; [|done].
    by destruct (world_http_get w (requests st) _) as [resp|msg].
  - by rewrite !githubTarball_final_state.
Qed.

Lemma tryTarball_with_status status_of (w : World) (url revision : string) (st : State) :
  tryTarball (with_status status_of w) url revision st = tryTarball w url revision st.
Proof.
  unfold tryTarball.
  destruct (strings.HasPrefix url "https://github.com/");
    [apply githubTarball_with_status|done].
Qed.

Lemma remoteRepository_with_status status_of (w : World)
    (url importName revision : string) (st : State) :
  remoteRepository (with_status status_of w) url importName revision st
  = remoteRepository w url importName revision st.
Proof.
  destruct (remapURL_some url) as [remappedURL Hremap].
  rewrite !(remoteRepository_unfold _ _ _ _ _ _ Hremap).
  rewrite tryTarball_with_status.
  destruct (tryTarball w remappedURL revision st) as [[tarball|err|] st1]; [done| |done].
  by rewrite tryTarball_with_status.
Qed.

(** ** The process *)

Lemma remoteRepository_Ret (w : World) (url importName revision : string) (st : State) :
  exists repo st', remoteRepository w url importName revision st = (Ret repo, st').
Proof.
  destruct (remapURL_some url) as [remappedURL Hremap].
  rewrite (remoteRepository_unfold _ _ _ _ _ _ Hremap).
  pose proof (tryTarball_no_panic w remappedURL revision st) as Hfirst.
  destruct (tryTarball w remappedURL revision st) as [[tarball|err|] st1];
    [by eexists _, _| |done].
  pose proof (tryTarball_no_panic w url revision st1) as Hsecond.
  destruct (tryTarball w url revision st1) as [[tarball|err2|] st2];
    [by eexists _, _|by eexists _, _|done].
Qed.

Lemma main_project_step (w : World) (env : Env) (lp : lockfile.LockedProject)
    (p : Process) :
  exists piece st',
    main_project w env lp p
    = (Next (), {| stdout := stdout p +:+ piece; stderr := stderr p; machine := st' |})
    /\ piece_of w env lp (machine p) piece st'.
Proof.
  unfold main_project, piece_of.
  destruct (vcs_RepoRootForImportPath env (lockfile.Name lp)) as [root|msg].
  - destruct (remoteRepository_Ret w (Repo root) (lockfile.Name lp)
                (lockfile.Revision lp) (machine p)) as (repo & st' & Hrepo).
    exists (GetRepoString repo (NamingSpec.Name (lockfile.Name lp)) (lockfile.Name lp)), st'.
    unfold mbind, Proc_bind, call, must. rewrite Hrepo, bazelName_value.
    split; [done|]. by exists repo, (NamingSpec.Name (lockfile.Name lp)).
  - exists (msg +:+ newline), (machine p). by split.
Qed.


Lemma main_loop_output (w : World) (env : Env) (projects : list lockfile.LockedProject)
    (p : Process) :
  exists pieces st',
    main_loop w env projects p
    = (Next (), {| stdout := stdout p +:+ RenderSpec.lines pieces;
                   stderr := stderr p;
                   machine := st' |})
    /\ pieces_of w env projects (machine p) pieces st'.
Proof.
  revert p. induction projects as [|lp rest IH]; intros p.
  - exists [], (machine p). simpl. rewrite string_app_nil_r. by destruct p.
  - destruct (main_project_step w env lp p) as (piece & st1 & Hstep & Hpiece).
    destruct (IH {| stdout := stdout p +:+ piece; stderr := stderr p; machine := st1 |})
      as (more & st' & Hloop & Hmore).
    exists (piece :: more), st'. simpl main_loop.
    unfold mbind, Proc_bind. rewrite Hstep, Hloop. simpl.
    rewrite string_app_assoc. split; [done|]. by exists st1.
Qed.

(** X13. With a number of arguments other than one, or with one argument
    that is white space only, the process prints the line of usage on the
    standard output and exits with code 1; it reads no file and sends no
    request. *)
Theorem run_usage (w : World) (env : Env) (st : State) :
  length (os_Args env) <> 2
  \/ (exists program arg,
        os_Args env = [program; arg] /\ strings_TrimSpace arg = EmptyString) ->
  run w env st
  = (Exited 1,
     {| stdout := "usage: dep2bazel path/to/Gopkg.lock" +:+ newline;
        stderr := EmptyString;
        machine := st |}).
Proof.
  intros [Hcount|(program & arg & Hargs & Hblank)]; unfold run, main.
  - by rewrite decide_True.
  - rewrite Hargs. rewrite decide_False by (simpl; lia).
    unfold mbind, Proc_bind, must. simpl. by rewrite Hblank.
Qed.

Lemma run_usage_witness :
  run sample_world
    {| os_Args := ["dep2bazel"; String "009" (String " " (String "010" EmptyString))];
       toml_Unmarshal := toml_Unmarshal sample_env;
       vcs_RepoRootForImportPath := vcs_RepoRootForImportPath sample_env |}
    sample_files
  = (Exited 1,
     {| stdout := "usage: dep2bazel path/to/Gopkg.lock" +:+ newline;
        stderr := EmptyString;
        machine := sample_files |}).
Proof.
  apply run_usage. right.
  exists "dep2bazel", (String "009" (String " " (String "010" EmptyString))).
  split; reflexivity.
Defined.

(** X14. A lock file that cannot be read, or that cannot be parsed, ends the
    process with code 1 and one line on the standard error, which names the
    failure and gives the text of the error; nothing is written to the
    standard output, not even the header, and the state is as before. *)
Theorem run_input_error (w : World) (env : Env) (st : State) (program arg : string) :
  os_Args env = [program; arg] ->
  strings_TrimSpace arg <> EmptyString ->
  (forall err,
     (ioutil_ReadFile w (strings_TrimSpace arg) st).1 = Fail err ->
     run w env st
     = (Exited 1,
        {| stdout := EmptyString;
           stderr := "failed to read Gopkg.lock " +:+ Error err +:+ newline;
           machine := st |}))
  /\ (forall content msg,
        (ioutil_ReadFile w (strings_TrimSpace arg) st).1 = Ret content ->
        toml_Unmarshal env content = failed msg ->
        run w env st
        = (Exited 1,
           {| stdout := EmptyString;
              stderr := "failed to parse Gopkg.lock " +:+ msg +:+ newline;
              machine := st |})).
Proof.
  intros Hargs Hname.
  assert (forall r, (ioutil_ReadFile w (strings_TrimSpace arg) st).1 = r ->
            ioutil_ReadFile w (strings_TrimSpace arg) st = (r, st)) as Hread.
  { intros r <-. unfold ioutil_ReadFile.
    destruct (world_read w _); [done|]. by destruct (files st !! _). }
  split.
  - intros err Herr. apply Hread in Herr.
    unfold run, main. rewrite Hargs. rewrite decide_False by (simpl; lia).
    unfold mbind, Proc_bind, must, call. simpl.
    rewrite decide_False by done. simpl. rewrite Herr. simpl.
    unfold fmt_Sprintln, newline; cbn [strings.Join];
      by autorewrite with string_norm.
  - intros content msg Hcontent Hparse. apply Hread in Hcontent.
    unfold run, main. rewrite Hargs. rewrite decide_False by (simpl; lia).
    unfold mbind, Proc_bind, must, call. simpl.
    rewrite decide_False by done. simpl. rewrite Hcontent. simpl.
    rewrite Hparse. simpl.
    unfold fmt_Sprintln, newline; cbn [strings.Join];
      by autorewrite with string_norm.
Qed.

Lemma run_input_error_witness :
  (forall err,
     (ioutil_ReadFile sample_world (strings_TrimSpace " Gopkg.lock ") initial_state).1
     = Fail err ->
     run sample_world sample_env initial_state
     = (Exited 1,
        {| stdout := EmptyString;
           stderr := "failed to read Gopkg.lock " +:+ Error err +:+ newline;
           machine := initial_state |}))
  /\ (forall content msg,
        (ioutil_ReadFile sample_world (strings_TrimSpace " Gopkg.lock ") initial_state).1
        = Ret content ->
        toml_Unmarshal sample_env content = failed msg ->
        run sample_world sample_env initial_state
        = (Exited 1,
           {| stdout := EmptyString;
              stderr := "failed to parse Gopkg.lock " +:+ msg +:+ newline;
              machine := initial_state |})).
Proof.
  apply (run_input_error sample_world sample_env initial_state "dep2bazel" " Gopkg.lock ").
  - reflexivity.
  - vm_compute. discriminate.
Defined.

(** X15. Once the lock file is read and parsed, the process ends with code
    0 and an empty standard error, whatever happens to the projects: the
    standard output is the header followed by one piece for each project,
    in the order of the lock file, a rule or the line of its error. *)
Theorem run_output (w : World) (env : Env) (st : State) (program arg : string)
    (content : list byte) (raw : lockfile.Lock) :
  os_Args env = [program; arg] ->
  strings_TrimSpace arg <> EmptyString ->
  world_read w (strings_TrimSpace arg) = None ->
  files st !! strings_TrimSpace arg = Some content ->
  toml_Unmarshal env content = ok raw ->
  exists pieces st',
    run w env st
    = (Exited 0,
       {| stdout := header +:+ RenderSpec.lines pieces;
          stderr := EmptyString;
          machine := st' |})
    /\ pieces_of w env (lockfile.Projects raw) st pieces st'.
Proof.
  intros Hargs Hname Hread Hfile Hparse.
  destruct (main_loop_output w env (lockfile.Projects raw)
              {| stdout := header; stderr := EmptyString; machine := st |})
    as (pieces & st' & Hloop & Hpieces).
  exists pieces, st'. split; [|done].
  unfold run, main. rewrite Hargs. rewrite decide_False by (simpl; lia).
  unfold mbind, Proc_bind, must, call. simpl.
  rewrite decide_False by done. simpl.
  unfold ioutil_ReadFile. rewrite Hread, Hfile. simpl. rewrite Hparse.
  change (match main_loop w env (lockfile.Projects raw)
                  {| stdout := header; stderr := EmptyString; machine := st |}
          with
          | (Next _, p) => (Exited 0, p)
          | (Stop s, p) => (s, p)
          end
          = (Exited 0,
             {| stdout := header +:+ RenderSpec.lines pieces;
                stderr := EmptyString;
                machine := st' |})).
  by rewrite Hloop.
Qed.

Lemma run_output_witness :
  exists pieces st',
    run sample_world sample_env sample_files
    = (Exited 0,
       {| stdout := header +:+ RenderSpec.lines pieces;
          stderr := EmptyString;
          machine := st' |})
    /\ pieces_of sample_world sample_env (lockfile.Projects sample_lock) sample_files
         pieces st'.
Proof.
  apply (run_output sample_world sample_env sample_files "dep2bazel" " Gopkg.lock "
           [x5b; x5b; x70]).
  - reflexivity.
  - vm_compute. discriminate.
  - reflexivity.
  - vm_compute. reflexivity.
  - reflexivity.
Defined.

(** ** More about the remapper *)

Lemma substring_split (n : nat) (s : string) :
  n <= String.length s ->
  String.substring 0 n s +:+ String.substring n (String.length s - n) s = s.
Proof.
  revert s. induction n as [|n IH]; intros s Hn.
  - rewrite Nat.sub_0_r, substring_all. by destruct s.
  - destruct s as [|c s]; [simpl in Hn; lia|]. simpl in Hn.
    change (String c (String.substring 0 n s
                      +:+ String.substring n (String.length s - n) s)
            = String c s).
    rewrite IH by lia. done.
Qed.

Lemma substring_snoc (n : nat) (s : string) :
  n < String.length s ->
  String.substring 0 (S n) s = String.substring 0 n s +:+ String.substring n 1 s.
Proof.
  revert s. induction n as [|n IH]; intros s Hn.
  - destruct s as [|c s]; [simpl in Hn; lia|]. simpl. by destruct s.
  - destruct s as [|c s]; [simpl in Hn; lia|]. simpl in Hn.
    change (String c (String.substring 0 (S n) s)
            = String c (String.substring 0 n s +:+ String.substring n 1 s)).
    rewrite IH by lia. done.
Qed.

(** What [last_index_from] finds: no separator at all, or the offset of a
    separator after which there is none. *)
Lemma last_index_from_spec (s : string) (sep : ascii) (pos last : Z) :
  (last < pos)%Z ->
  let r := path.last_index_from s sep pos last in
  (r = last /\ Forall (fun c => c <> sep) (bytes_in s))
  \/ (exists k,
        r = (pos + Z.of_nat k)%Z
        /\ k < String.length s
        /\ String.substring k 1 s = String sep EmptyString
        /\ Forall (fun c => c <> sep)
             (bytes_in (String.substring (S k) (String.length s - S k) s))).
Proof.
  revert pos last. induction s as [|c s IH]; intros pos last Hlast; cbv zeta.
  - left. by split.
  - simpl path.last_index_from.
    destruct (IH (pos + 1)%Z (if Ascii.eqb c sep then pos else last)) as
      [[Hr Hnone]|(k & Hr & Hk & Hsep & Hnone)].
    { destruct (Ascii.eqb c sep); lia. }
    + destruct (Ascii.eqb c sep) eqn:Hc.
      * right. exists 0. apply Ascii.eqb_eq in Hc as ->.
        split; [lia|]. split; [simpl; lia|]. split; [by destruct s|].
        simpl. by rewrite Nat.sub_0_r, substring_all.
      * left. split; [done|]. apply Ascii.eqb_neq in Hc. by constructor.
    + right. exists (S k). split; [lia|]. split; [simpl; lia|]. by split.
Qed.

Lemma path_Split_spec (p : string) :
  ~ Forall (fun c => c <> "/"%char) (bytes_in p) ->
  exists dir file,
    path.Split p = (dir +:+ "/", file)
    /\ p = dir +:+ "/" +:+ file
    /\ Forall (fun c => c <> "/"%char) (bytes_in file).
Proof.
  intros Hslash. unfold path.Split, path.LastIndex.
  destruct (last_index_from_spec p "/" 0 (-1)) as
    [[_ Hnone]|(k & Hr & Hk & Hsep & Hnone)]; [lia|done|].
  rewrite Hr. replace (Z.to_nat (0 + Z.of_nat k + 1)) with (S k) by lia.
  exists (String.substring 0 k p), (String.substring (S k) (String.length p - S k) p).
  rewrite substring_snoc, Hsep by done.
  split; [done|]. split; [|done].
  rewrite <- string_app_assoc, <- Hsep, <- substring_snoc by done.
  symmetry. apply substring_split. lia.
Qed.

(** X17. A URL of go.googlesource.com is remapped to the repository of the
    golang organisation of github.com that is named by what follows the
    last slash of the URL; what stands between the host and that last
    segment is dropped. *)
Theorem remapURL_googlesource (url : string) :
  strings.HasPrefix url "https://go.googlesource.com/" = true ->
  exists dir repoName,
    url = dir +:+ "/" +:+ repoName
    /\ Forall (fun c => c <> "/"%char) (bytes_in repoName)
    /\ remapURL url = Some ("https://github.com/golang/" +:+ repoName).
Proof.
  intros Hsource.
  destruct (path_Split_spec url) as (dir & repoName & Hsplit & Hurl & Hname).
  { apply prefix_inv in Hsource as [rest ->]. intros Hnone.
    apply Forall_cons in Hnone as [_ Hnone]. apply Forall_cons in Hnone as [_ Hnone].
    apply Forall_cons in Hnone as [_ Hnone]. apply Forall_cons in Hnone as [_ Hnone].
    apply Forall_cons in Hnone as [_ Hnone]. apply Forall_cons in Hnone as [_ Hnone].
    apply Forall_cons in Hnone as [Hslash _]. done. }
  exists dir, repoName. split; [done|]. split; [done|].
  unfold remapURL. rewrite Hsource, Hsplit.
  apply prefix_inv in Hsource as [rest Hrest]. rewrite Hrest. reflexivity.
Qed.

Lemma remapURL_googlesource_witness :
  exists dir repoName,
    "https://go.googlesource.com/x/tools" = dir +:+ "/" +:+ repoName
    /\ Forall (fun c => c <> "/"%char) (bytes_in repoName)
    /\ remapURL "https://go.googlesource.com/x/tools"
       = Some ("https://github.com/golang/" +:+ repoName).
Proof. apply remapURL_googlesource. reflexivity. Defined.

Lemma main_project_with_status status_of (w : World) (env : Env)
    (lp : lockfile.LockedProject) (p : Process) :
  main_project (with_status status_of w) env lp p = main_project w env lp p.
Proof.
  unfold main_project.
  destruct (vcs_RepoRootForImportPath env (lockfile.Name lp)) as [root|msg]; [|done].
  unfold mbind, Proc_bind, call. by rewrite remoteRepository_with_status.
Qed.

Lemma main_loop_with_status status_of (w : World) (env : Env)
    (projects : list lockfile.LockedProject) (p : Process) :
  main_loop (with_status status_of w) env projects p = main_loop w env projects p.
Proof.
  revert p. induction projects as [|lp rest IH]; intros p; [done|].
  simpl. unfold mbind, Proc_bind. rewrite main_project_with_status.
  by destruct (main_project w env lp p) as [[[]|s] p'].
Qed.

(** X16. The program never reads the status of an HTTP response: in two
    worlds that differ in the status codes only, the process ends in the
    same way, with the same output and the same state. *)
Theorem run_with_status (status_of : list string -> string -> Z) (w : World) (env : Env)
    (st : State) :
  run (with_status status_of w) env st = run w env st.
Proof.
  unfold run, main, mbind, Proc_bind.
  destruct (decide (length (os_Args env) <> 2)); [done|]. simpl.
  destruct (must (os_Args env !! 1%nat) (start st)) as [[arg|s] p] eqn:Harg; [|done].
  destruct (decide (strings_TrimSpace arg = EmptyString)); [done|]. simpl.
  change (call (ioutil_ReadFile (with_status status_of w) (strings_TrimSpace arg)))
    with (call (ioutil_ReadFile w (strings_TrimSpace arg))).
  destruct (call (ioutil_ReadFile w (strings_TrimSpace arg)) p) as [[[err|content]|s] p'];
    [done| |done].
  destruct (toml_Unmarshal env content) as [raw|msg]; [|done].
  destruct (write_stdout (fmt.Sprintf header []) p') as [[[]|s] p''] eqn:Hheader; [|done].
  by rewrite main_loop_with_status.
Qed.
